(** * practice-timer: the PDF summary builder

    A shallow embedding of [tmp/pdfs/build_practice_timer_summary.py]:
    the word wrapper it calls, the escaping of PDF literal strings, the
    single-page layout loop and the serializer that assembles the six
    PDF objects, the cross-reference table and the trailer.

    Python [str] values are lists of Unicode code points, [bytes] values
    are lists of [Byte.byte], Python integers are [Z].  A computation
    that can raise returns a [res]. *)

From Stdlib Require Import String Ascii.
From Stdlib Require Import List ZArith NArith Lia Bool Sorted.
From Stdlib.Strings Require Import Byte.
From Stdlib Require Import DecimalString DecimalZ DecimalFacts.
From Equations Require Import Equations.
Import ListNotations.

Open Scope Z_scope.

(** ** Python values *)

Definition codepoint := N.
Definition pystr := list codepoint.
Definition bytes := list byte.

(** A string literal of the script, as code points. *)
Definition py (s : string) : pystr :=
  map (fun b => Byte.to_N b) (list_byte_of_string s).

(** A bytes literal of the script. *)
Definition bs (s : string) : bytes := list_byte_of_string s.

Definition len {A} (l : list A) : Z := Z.of_nat (length l).

Definition is_nil {A} (l : list A) : bool :=
  match l with [] => true | _ => false end.

(** [sep.join(parts)] *)
Fixpoint join {A} (sep : list A) (parts : list (list A)) : list A :=
  match parts with
  | [] => []
  | [p] => p
  | p :: rest => p ++ sep ++ join sep rest
  end.

(** ** Exceptions *)

Inductive exn :=
| KeyError
| IndexError
| ValueError
| UnicodeEncodeError
| OSError.

Inductive res (A : Type) :=
| Ok (a : A)
| Raise (e : exn).
Arguments Ok {A} a.
Arguments Raise {A} e.

Definition bind {A B} (m : res A) (k : A -> res B) : res B :=
  match m with
  | Ok a => k a
  | Raise e => Raise e
  end.

Notation "x <- m ;; k" := (bind m (fun x => k))
  (at level 61, m at next level, right associativity).
Notation "' p <- m ;; k" := (bind m (fun p => k))
  (at level 61, p pattern, m at next level, right associativity).

(** ** Code point classes *)

Definition LF : codepoint := 10%N.
Definition SPACE : codepoint := 32%N.
Definition BACKSLASH : codepoint := 92%N.
Definition LPAREN : codepoint := 40%N.
Definition RPAREN : codepoint := 41%N.

(** [str.isspace] on one code point: the code points Python's Unicode
    database marks as whitespace. *)
Definition isspace (c : codepoint) : bool :=
  ((9 <=? c) && (c <=? 13) || (28 <=? c) && (c <=? 32) ||
   (c =? 133) || (c =? 160) || (c =? 5760) ||
   (8192 <=? c) && (c <=? 8202) || (c =? 8232) || (c =? 8233) ||
   (c =? 8239) || (c =? 8287) || (c =? 12288))%N.

Fixpoint lstrip (s : pystr) : pystr :=
  match s with
  | [] => []
  | c :: s' => if isspace c then lstrip s' else s
  end.

Definition rstrip (s : pystr) : pystr := rev (lstrip (rev s)).

(** [s.strip()] *)
Definition strip (s : pystr) : pystr := rstrip (lstrip s).

(** [s.split()]: the maximal runs of non-whitespace code points. *)
Fixpoint split_ws_aux (cur : pystr) (s : pystr) : list pystr :=
  match s with
  | [] => if is_nil cur then [] else [cur]
  | c :: s' =>
      if isspace c
      then (if is_nil cur then split_ws_aux [] s' else cur :: split_ws_aux [] s')
      else split_ws_aux (cur ++ [c]) s'
  end.

Definition split_ws (s : pystr) : list pystr := split_ws_aux [] s.

(** ** The standard library's [textwrap.wrap]

    [wrap] of the script calls [textwrap.wrap(text, width=width,
    break_long_words=False, break_on_hyphens=False)], that is
    [TextWrapper(...).wrap(text)] with every other option at its
    default: empty indents, [expand_tabs], [replace_whitespace] and
    [drop_whitespace] on, [fix_sentence_endings] off, [tabsize] 8 and
    no [max_lines].  The module follows [TextWrapper] at that
    configuration; the branches the configuration switches off are
    left out. *)
Module textwrap.

(** [_whitespace = '\t\n\x0b\x0c\r '] *)
Definition whitespace : pystr := [9; 10; 11; 12; 13; 32]%N.

Definition in_whitespace (c : codepoint) : bool :=
  existsb (N.eqb c) whitespace.

(** [text.expandtabs(tabsize)], with the running column. *)
Fixpoint expandtabs_from (tabsize : N) (line_pos : N) (s : pystr) : pystr :=
  match s with
  | [] => []
  | c :: s' =>
      if (c =? 9)%N then
        if (0 <? tabsize)%N then
          let incr := (tabsize - line_pos mod tabsize)%N in
          repeat SPACE (N.to_nat incr)
            ++ expandtabs_from tabsize (line_pos + incr)%N s'
        else expandtabs_from tabsize line_pos s'
      else
        c :: expandtabs_from tabsize
               (if (c =? 10)%N || (c =? 13)%N then 0%N else (line_pos + 1)%N) s'
  end.

Definition expandtabs (tabsize : N) (s : pystr) : pystr :=
  expandtabs_from tabsize 0%N s.

(** [text.translate(unicode_whitespace_trans)] *)
Definition translate_whitespace (s : pystr) : pystr :=
  map (fun c => if in_whitespace c then SPACE else c) s.

Definition munge_whitespace (text : pystr) : pystr :=
  translate_whitespace (expandtabs 8 text).

(** [_split] with [break_on_hyphens] off:
    [wordsep_simple_re.split(text)] with the empty pieces removed,
    that is the maximal runs of whitespace and of non-whitespace, in
    order. *)
Fixpoint split (text : pystr) : list pystr :=
  match text with
  | [] => []
  | c :: text' =>
      match split text' with
      | (d :: w) :: rest =>
          if Bool.eqb (in_whitespace c) (in_whitespace d)
          then (c :: d :: w) :: rest
          else [c] :: (d :: w) :: rest
      | chunks => [c] :: chunks
      end
  end.

Definition split_chunks (text : pystr) : list pystr :=
  split (munge_whitespace text).

(** The inner [while chunks:] of [_wrap_chunks]: move chunks onto the
    current line while they fit.  [chunks] is the stack of the
    source, its top ([chunks[-1]]) at the head of the list. *)
Fixpoint fill_line (width : Z) (cur_line : list pystr) (cur_len : Z)
    (chunks : list pystr) : list pystr * Z * list pystr :=
  match chunks with
  | [] => (cur_line, cur_len, [])
  | c :: rest =>
      let l := len c in
      if cur_len + l <=? width
      then fill_line width (cur_line ++ [c]) (cur_len + l) rest
      else (cur_line, cur_len, chunks)
  end.

(** [_handle_long_word] with [break_long_words] off: the long chunk
    goes on the current line only when that line is still empty
    ([space_left], which only the breaking branch reads, is left out).
    Returns the current line and the chunk stack. *)
Definition handle_long_word (chunks cur_line : list pystr)
    (cur_len width : Z) : list pystr * list pystr :=
  match cur_line, chunks with
  | [], c :: rest => (cur_line ++ [c], rest)
  | _, _ => (cur_line, chunks)
  end.

(** One pass of the outer [while chunks:] of [_wrap_chunks]: builds
    one line.  Returns the lines so far and the remaining stack. *)
Definition wrap_line (width0 : Z) (lines chunks : list pystr)
    : list pystr * list pystr :=
  let indent : pystr := [] in
  let width := width0 - len indent in
  let chunks :=
    match chunks with
    | c :: rest =>
        if is_nil (strip c) && negb (is_nil lines) then rest else chunks
    | [] => chunks
    end in
  let '(cur_line, cur_len, chunks) := fill_line width [] 0 chunks in
  let '(cur_line, chunks) :=
    match chunks with
    | c :: _ =>
        if len c >? width
        then handle_long_word chunks cur_line cur_len width
        else (cur_line, chunks)
    | [] => (cur_line, chunks)
    end in
  let cur_line :=
    if negb (is_nil cur_line) && is_nil (strip (last cur_line []))
    then removelast cur_line
    else cur_line in
  let lines :=
    if negb (is_nil cur_line)
    then lines ++ [indent ++ concat cur_line]
    else lines in
  (lines, chunks).

(** The outer [while chunks:] loop. *)
Equations? wrap_loop (width : Z) (lines chunks : list pystr)
    : list pystr by wf (length chunks) lt :=
  wrap_loop width lines [] := lines;
  wrap_loop width lines (c :: chunks) :=
    wrap_loop width (fst (wrap_line width lines (c :: chunks)))
                    (snd (wrap_line width lines (c :: chunks))).
Proof.
  (* every pass takes at least one chunk off the stack *)
  assert (fill_length : forall w cs cl n,
    (length (snd (fill_line w cl n cs)) <= length cs)%nat).
  { induction cs as [|c0 rest IH]; intros cl n; simpl; [lia|].
    destruct (n + len c0 <=? w); simpl; [|lia].
    specialize (IH (cl ++ [c0]) (n + len c0)). lia. }
  assert (fill_stuck : forall w cs cl n,
    (length (snd (fill_line w cl n cs)) < length cs)%nat \/
    (snd (fill_line w cl n cs) = cs /\ fst (fst (fill_line w cl n cs)) = cl /\
     match cs with
     | [] => True
     | c0 :: _ => w < n + len c0
     end)).
  { intros w cs cl n. destruct cs as [|c0 rest]; simpl; [right; auto|].
    destruct (n + len c0 <=? w) eqn:E.
    - left. specialize (fill_length w rest (cl ++ [c0]) (n + len c0)). lia.
    - right. apply Z.leb_gt in E. auto. }
  unfold wrap_line.
  remember (if is_nil (strip c) && negb (is_nil lines)
            then chunks else c :: chunks) as chunks1 eqn:E1.
  assert (N1 : (chunks1 <> [] /\ length chunks1 <= length (c :: chunks))%nat
               \/ (length chunks1 < length (c :: chunks))%nat)
    by (subst chunks1; destruct (is_nil (strip c) && negb (is_nil lines));
        simpl; [right; lia | left; split; [discriminate | lia]]).
  clear E1.
  pose proof (fill_stuck (width - len (@nil codepoint)) chunks1 [] 0) as S.
  destruct (fill_line (width - len (@nil codepoint)) [] 0 chunks1) as [[cl n] r].
  simpl in S.
  remember (match r with
            | [] => (cl, r)
            | c0 :: _ =>
                if len c0 >? width - len (@nil codepoint)
                then handle_long_word r cl n (width - len (@nil codepoint))
                else (cl, r)
            end) as p eqn:Ep.
  assert (D : (length (snd p) < length (c :: chunks))%nat).
  { subst p. destruct S as [S | (-> & -> & S)].
    - destruct r as [|c0 r']; simpl in *; [lia|].
      destruct (len c0 >? _); simpl; [|lia].
      unfold handle_long_word. destruct cl; simpl; lia.
    - destruct chunks1 as [|c0 r']; simpl in *;
        [destruct N1 as [[N1 _]|N1]; [congruence | lia]|].
      replace (len c0 >? width - len (@nil codepoint)) with true
        by (symmetry; apply Z.gtb_lt; lia).
      simpl. lia. }
  clear Ep. destruct p as [cl2 r2]. simpl in D |- *.
  exact D.
Qed.

(** [_wrap_chunks] *)
Definition wrap_chunks (width : Z) (chunks : list pystr) : res (list pystr) :=
  if width <=? 0 then Raise ValueError
  else Ok (wrap_loop width [] chunks).

(** [TextWrapper.wrap] *)
Definition wrap (text : pystr) (width : Z) : res (list pystr) :=
  wrap_chunks width (split_chunks text).

End textwrap.

(** ** Constants of the script *)

Definition PAGE_WIDTH : Z := 612.
Definition PAGE_HEIGHT : Z := 792.
Definition MARGIN_X : Z := 54.
Definition MARGIN_TOP : Z := 54.
Definition MARGIN_BOTTOM : Z := 54.
Definition CONTENT_WIDTH : Z := PAGE_WIDTH - 2 * MARGIN_X.

Definition TITLE_SIZE : Z := 18.
Definition HEADING_SIZE : Z := 12.
Definition BODY_SIZE : Z := 11.
Definition LEADING : Z := 14.

Definition MAX_CHARS_BODY : Z := 90.
Definition MAX_CHARS_BODY_INDENT : Z := 86.

(** ** [wrap] and [escape_pdf_text] *)

Definition wrap (text : pystr) (width : Z) : res (list pystr) :=
  textwrap.wrap text width.

(** [s.startswith(p)] *)
Fixpoint starts_with {A} (eqb : A -> A -> bool) (p s : list A) : bool :=
  match p, s with
  | [], _ => true
  | a :: p', b :: s' => eqb a b && starts_with eqb p' s'
  | _ :: _, [] => false
  end.

(** [s.replace(old, new)] for a non-empty [old]: scan from the left,
    replace each occurrence and continue after it.  [skip] counts the
    code points of the occurrence still to be passed over. *)
Fixpoint replace_from (old new : pystr) (skip : nat) (s : pystr) : pystr :=
  match s with
  | [] => []
  | c :: s' =>
      match skip with
      | S k => replace_from old new k s'
      | O =>
          if starts_with N.eqb old s
          then new ++ replace_from old new (length old - 1) s'
          else c :: replace_from old new 0 s'
      end
  end.

Definition replace (old new : pystr) (s : pystr) : pystr :=
  replace_from old new 0 s.

Definition escape_pdf_text (text : pystr) : pystr :=
  replace [RPAREN] [BACKSLASH; RPAREN]
    (replace [LPAREN] [BACKSLASH; LPAREN]
       (replace [BACKSLASH] [BACKSLASH; BACKSLASH] text)).

Definition special (c : codepoint) : bool :=
  ((c =? BACKSLASH) || (c =? LPAREN) || (c =? RPAREN))%N.

(** Reading an escaped literal back, the three escape sequences
    reversed: a backslash followed by a backslash or a parenthesis
    stands for that code point.  The escaping property is stated
    against this inverse. *)
Fixpoint unescape_pdf_text (s : pystr) : pystr :=
  match s with
  | [] => []
  | c :: s' =>
      match s' with
      | d :: s'' =>
          if (c =? BACKSLASH)%N && special d
          then d :: unescape_pdf_text s''
          else c :: unescape_pdf_text s'
      | [] => [c]
      end
  end.

(** The same reversal written with [replace], the three replacements
    undone last to first. *)
Definition unescape_by_replace (s : pystr) : pystr :=
  replace [BACKSLASH; BACKSLASH] [BACKSLASH]
    (replace [BACKSLASH; LPAREN] [LPAREN]
       (replace [BACKSLASH; RPAREN] [RPAREN] s)).

(** Escaping the code points of a set [S] with a backslash. *)
Definition escape_with (S : codepoint -> bool) (t : pystr) : pystr :=
  flat_map (fun c => if S c then [BACKSLASH; c] else [c]) t.

(** No unescaped parenthesis or backslash: read from the left, every
    backslash is followed by a backslash or a parenthesis (and the
    pair is passed over), and no other parenthesis occurs. *)
Fixpoint all_escaped (s : pystr) : bool :=
  match s with
  | [] => true
  | c :: s' =>
      if (c =? BACKSLASH)%N then
        match s' with
        | d :: s'' => special d && all_escaped s''
        | [] => false
        end
      else negb (special c) && all_escaped s'
  end.

(** ** Layout *)

(** One drawn line: the dict [add_text] appends. *)
Record placement := {
  text : pystr;
  x : Z;
  y : Z;
  font : pystr;
  size : Z
}.

Definition add_text (lines : list placement) (text : pystr) (x y : Z)
    (font : pystr) (size : Z) : list placement :=
  lines ++ [{| text := text; x := x; y := y; font := font; size := size |}].

(** The dicts of [sections], by their ["type"]. *)
Inductive section :=
| Title (text : pystr)
| Section (title : pystr) (body : list pystr)
| Bullets (title : pystr) (items : list pystr).

(** [section["text"]] and [section["title"]] *)
Definition get_text (s : section) : res pystr :=
  match s with
  | Title t => Ok t
  | _ => Raise KeyError
  end.

Definition get_title (s : section) : res pystr :=
  match s with
  | Title _ => Raise KeyError
  | Section t _ => Ok t
  | Bullets t _ => Ok t
  end.

Definition Helvetica : pystr := py "Helvetica".
Definition Helvetica_Bold : pystr := py "Helvetica-Bold".

(** [for line in section["body"]: ...] *)
Fixpoint layout_body (body : list pystr) (lines : list placement)
    (current_y : Z) : list placement * Z :=
  match body with
  | [] => (lines, current_y)
  | line :: body' =>
      layout_body body'
        (add_text lines line MARGIN_X current_y Helvetica BODY_SIZE)
        (current_y - LEADING)
  end.

(** [for i, line in enumerate(wrapped): ...], from index [i] on. *)
Fixpoint layout_wrapped (i : nat) (wrapped : list pystr)
    (lines : list placement) (current_y : Z) : list placement * Z :=
  match wrapped with
  | [] => (lines, current_y)
  | line :: wrapped' =>
      let prefix := if Nat.eqb i 0 then py "- " else py "  " in
      layout_wrapped (S i) wrapped'
        (add_text lines (prefix ++ line) MARGIN_X current_y Helvetica BODY_SIZE)
        (current_y - LEADING)
  end.

(** [for item in section["items"]: ...] *)
Fixpoint layout_items (items : list pystr) (lines : list placement)
    (current_y : Z) : res (list placement * Z) :=
  match items with
  | [] => Ok (lines, current_y)
  | item :: items' =>
      wrapped <- wrap item MAX_CHARS_BODY_INDENT ;;
      let '(lines, current_y) := layout_wrapped 0 wrapped lines current_y in
      layout_items items' lines current_y
  end.

(** The body of [for section in sections[1:]], up to the overflow
    check. *)
Definition layout_section (s : section) (lines : list placement)
    (current_y : Z) : res (list placement * Z) :=
  title <- get_title s ;;
  let lines := add_text lines title MARGIN_X current_y Helvetica_Bold HEADING_SIZE in
  let current_y := current_y - 16 in
  match s with
  | Section _ body =>
      let '(lines, current_y) := layout_body body lines current_y in
      Ok (lines, current_y - 4)
  | Bullets _ items =>
      '(lines, current_y) <- layout_items items lines current_y ;;
      Ok (lines, current_y - 4)
  | Title _ => Ok (lines, current_y)
  end.

(** [for section in sections[1:]: ...; if current_y < MARGIN_BOTTOM: break] *)
Fixpoint layout_loop (secs : list section) (lines : list placement)
    (current_y : Z) : res (list placement * Z) :=
  match secs with
  | [] => Ok (lines, current_y)
  | s :: secs' =>
      '(lines, current_y) <- layout_section s lines current_y ;;
      if current_y <? MARGIN_BOTTOM
      then Ok (lines, current_y)
      else layout_loop secs' lines current_y
  end.

(** The layout part of the script: the title, then the loop. *)
Definition layout_state (sections : list section) : res (list placement * Z) :=
  match sections with
  | [] => Raise IndexError
  | s0 :: secs =>
      let current_y := PAGE_HEIGHT - MARGIN_TOP in
      let lines := [] in
      t <- get_text s0 ;;
      let lines := add_text lines t MARGIN_X current_y Helvetica_Bold TITLE_SIZE in
      let current_y := current_y - 22 in
      layout_loop secs lines current_y
  end.

Definition layout (sections : list section) : res (list placement) :=
  '(lines, _) <- layout_state sections ;;
  Ok lines.

(** The same walk with the overflow check taken out: every section
    laid out, the "full input" the overflow property compares with. *)
Fixpoint layout_loop_all (secs : list section) (lines : list placement)
    (current_y : Z) : res (list placement * Z) :=
  match secs with
  | [] => Ok (lines, current_y)
  | s :: secs' =>
      '(lines, current_y) <- layout_section s lines current_y ;;
      layout_loop_all secs' lines current_y
  end.

Definition layout_all_state (sections : list section) : res (list placement * Z) :=
  match sections with
  | [] => Raise IndexError
  | s0 :: secs =>
      let current_y := PAGE_HEIGHT - MARGIN_TOP in
      let lines := [] in
      t <- get_text s0 ;;
      let lines := add_text lines t MARGIN_X current_y Helvetica_Bold TITLE_SIZE in
      let current_y := current_y - 22 in
      layout_loop_all secs lines current_y
  end.

(** ** Serializer *)

(** [str(n)] and the [{n}] of an f-string, for an integer. *)
Definition str_int (z : Z) : pystr :=
  py (NilZero.string_of_int (Z.to_int z)).

(** [f"{pos:010d}"]: sign, then zeros up to a total width of ten, then
    the digits. *)
Definition format_010d (z : Z) : pystr :=
  let digits := py (NilZero.string_of_uint (N.to_uint (Z.abs_N z))) in
  let sign := if z <? 0 then py "-" else [] in
  sign ++ repeat 48%N (10 - length sign - length digits) ++ digits.

Inductive error_handler := Strict | Replace.

(** One code point in a single-byte codec whose code points are those
    below [limit] (256 for latin-1, 128 for ascii). *)
Definition encode_char (limit : N) (c : codepoint) : option byte :=
  if (c <? limit)%N then Byte.of_N c else None.

(** [s.encode(codec, errors)] *)
Fixpoint encode (limit : N) (errors : error_handler) (s : pystr) : res bytes :=
  match s with
  | [] => Ok []
  | c :: s' =>
      match encode_char limit c with
      | Some b => rest <- encode limit errors s' ;; Ok (b :: rest)
      | None =>
          match errors with
          | Strict => Raise UnicodeEncodeError
          | Replace => rest <- encode limit errors s' ;; Ok (x3f :: rest)
          end
      end
  end.

Definition encode_latin1 := encode 256.
Definition encode_ascii (s : pystr) : res bytes := encode 128 Strict s.

Definition NL : bytes := [x0a].

(** One element of [content]. *)
Definition content_item (line : placement) : pystr :=
  let t := escape_pdf_text (text line) in
  py "BT" ++ [LF]
  ++ py "/" ++ font line ++ py " " ++ str_int (size line) ++ py " Tf" ++ [LF]
  ++ py "1 0 0 1 " ++ str_int (x line) ++ py " " ++ str_int (y line) ++ py " Tm" ++ [LF]
  ++ py "(" ++ t ++ py ") Tj" ++ [LF]
  ++ py "ET" ++ [LF].

Definition content (lines : list placement) : list pystr :=
  map content_item lines.

Definition content_stream (lines : list placement) : res bytes :=
  encode_latin1 Replace (join [] (content lines)).

(** The six objects, in the order they are appended. *)
Definition objects (content_stream : bytes) : res (list bytes) :=
  let objects : list bytes := [] in
  let objects := objects ++
    [bs "1 0 obj" ++ NL ++ bs "<< /Type /Catalog /Pages 2 0 R >>" ++ NL
     ++ bs "endobj" ++ NL] in
  let objects := objects ++
    [bs "2 0 obj" ++ NL ++ bs "<< /Type /Pages /Kids [3 0 R] /Count 1 >>" ++ NL
     ++ bs "endobj" ++ NL] in
  page <- encode_ascii
            (py "<< /Type /Page /Parent 2 0 R /MediaBox [0 0 "
             ++ str_int PAGE_WIDTH ++ py " " ++ str_int PAGE_HEIGHT ++ py "] ") ;;
  let objects := objects ++
    [bs "3 0 obj" ++ NL
     ++ page
     ++ bs "/Resources << /Font << /Helvetica 4 0 R /Helvetica-Bold 5 0 R >> >> "
     ++ (bs "/Contents 6 0 R >>" ++ NL ++ bs "endobj" ++ NL)] in
  let objects := objects ++
    [bs "4 0 obj" ++ NL
     ++ bs "<< /Type /Font /Subtype /Type1 /BaseFont /Helvetica >>" ++ NL
     ++ bs "endobj" ++ NL] in
  let objects := objects ++
    [bs "5 0 obj" ++ NL
     ++ bs "<< /Type /Font /Subtype /Type1 /BaseFont /Helvetica-Bold >>" ++ NL
     ++ bs "endobj" ++ NL] in
  length_line <- encode_ascii
                   (py "<< /Length " ++ str_int (len content_stream) ++ py " >>"
                    ++ [LF] ++ py "stream" ++ [LF]) ;;
  let objects := objects ++
    [bs "6 0 obj" ++ NL
     ++ length_line
     ++ content_stream
     ++ (bs "endstream" ++ NL ++ bs "endobj" ++ NL)] in
  Ok objects.

(** [sum(len(part) for part in output)] *)
Definition sum_len (output : list bytes) : Z :=
  fold_left (fun acc part => acc + len part) output 0.

(** [for obj in objects: xref_positions.append(...); output.append(obj)] *)
Fixpoint xref_loop (objs : list bytes) (xref_positions : list Z)
    (output : list bytes) : list Z * list bytes :=
  match objs with
  | [] => (xref_positions, output)
  | obj :: objs' =>
      xref_loop objs' (xref_positions ++ [sum_len output]) (output ++ [obj])
  end.

(** [for pos in xref_positions: xref.append(...)] *)
Fixpoint xref_entries (xref_positions : list Z) (xref : list bytes)
    : res (list bytes) :=
  match xref_positions with
  | [] => Ok xref
  | pos :: rest =>
      entry <- encode_ascii (format_010d pos ++ py " 00000 n " ++ [LF]) ;;
      xref_entries rest (xref ++ [entry])
  end.

(** Everything the serializer builds, kept together so that the
    properties can speak of the parts as well as of the file. *)
Record pdf := {
  pdf_content_stream : bytes;
  pdf_objects : list bytes;
  pdf_xref_positions : list Z;
  pdf_output : list bytes;
  pdf_xref_start : Z;
  pdf_xref : list bytes;
  pdf_trailer : bytes;
  pdf_bytes : bytes
}.

Definition build_pdf (lines : list placement) : res pdf :=
  content_stream <- content_stream lines ;;
  objects <- objects content_stream ;;
  let xref_positions : list Z := [] in
  let output := [bs "%PDF-1.4" ++ NL] in
  let '(xref_positions, output) := xref_loop objects xref_positions output in
  let xref_start := sum_len output in
  size_line <- encode_ascii (py "0 " ++ str_int (len objects + 1) ++ [LF]) ;;
  let xref := [bs "xref" ++ NL; size_line; bs "0000000000 65535 f " ++ NL] in
  xref <- xref_entries xref_positions xref ;;
  trailer_size <- encode_ascii
                    (py "<< /Size " ++ str_int (len objects + 1)
                     ++ py " /Root 1 0 R >>" ++ [LF]) ;;
  trailer_start <- encode_ascii (str_int xref_start ++ [LF]) ;;
  let trailer :=
    bs "trailer" ++ NL
    ++ trailer_size
    ++ (bs "startxref" ++ NL)
    ++ trailer_start
    ++ (bs "%%EOF" ++ NL) in
  Ok {| pdf_content_stream := content_stream;
        pdf_objects := objects;
        pdf_xref_positions := xref_positions;
        pdf_output := output;
        pdf_xref_start := xref_start;
        pdf_xref := xref;
        pdf_trailer := trailer;
        pdf_bytes := join [] output ++ join [] xref ++ trailer |}.

(** ** The script's content *)

Definition what_it_is : pystr :=
  py "Practice Timer is a React/Vite web app for running practice sessions with "
  ++ py "Pomodoro-style work and break cycles, notifications, and PWA support. "
  ++ py "It focuses on reliable timing across desktop and mobile browsers, including iOS.".

Definition features : list pystr := [
  py "Pomodoro-style work and break timer with customizable durations";
  py "Iteration tracking across multiple work/break cycles";
  py "Sound alerts when sessions complete";
  py "Browser notifications for completion events";
  py "PWA install support with service worker caching";
  py "iOS background optimizations (background timer and wake-lock strategies)";
  py "Dark mode and responsive layout for desktop and mobile"
].

Definition how_it_works : list pystr := [
  py "UI: React app in `client/src` styled with Tailwind; entry point in `client/src/main.tsx`.";
  py "State: Zustand store in `client/src/stores/timerStore.ts` holds timer state and settings.";
  py "Timing: Web Worker in `client/src/workers/timerWorker.ts` drives ticks and completion messages.";
  py "Background: Service worker `client/public/sw.js` caches assets and runs background sync/notifications; registered in `client/src/main.tsx`.";
  py "Persistence: Settings stored in localStorage via `client/src/lib/localStorage.ts`.";
  py "Data flow: UI -> Zustand store -> Web Worker -> store -> UI; store posts updates to service worker for background handling."
].

Definition how_to_run : list pystr := [
  py "Install Node.js v16+ (prerequisite from README).";
  py "Run `npm install` from the repo root.";
  py "Run `npm run dev` to start the Vite dev server."
].

Definition sections : res (list section) :=
  let sections : list section := [] in
  let sections := sections ++ [Title (py "Practice Timer - App Summary")] in
  body <- wrap what_it_is MAX_CHARS_BODY ;;
  let sections := sections ++ [Section (py "What it is") body] in
  let sections := sections ++ [Section (py "Who it's for") [py "Not found in repo."]] in
  let sections := sections ++ [Bullets (py "What it does") features] in
  let sections := sections ++ [Bullets (py "How it works") how_it_works] in
  let sections := sections ++ [Bullets (py "How to run") how_to_run] in
  Ok sections.

(** ** The script, up to its bytes *)

(** The script up to [pdf_bytes]: content, layout, serializer. *)
Definition script_pdf_bytes : res bytes :=
  sections <- sections ;;
  lines <- layout sections ;;
  p <- build_pdf lines ;;
  Ok (pdf_bytes p).

(** ** Notions the properties are stated with *)

(** What the three replacements do to one code point. *)
Definition escape_codepoint (c : codepoint) : pystr :=
  if special c then [BACKSLASH; c] else [c].

(** The byte a code point becomes under latin-1 with [Replace]. *)
Definition latin1_or_qmark (c : codepoint) : byte :=
  match encode_char 256 c with
  | Some b => b
  | None => x3f
  end.

(** Baselines strictly decreasing in list order. *)
Definition decreasing (lines : list placement) : Prop :=
  StronglySorted (fun p q => y q < y p) lines.

(** A section list whose only section overflows the page: a title and
    one section of fifty body lines. *)
Definition overflow_in_last_section : list section :=
  [Title (py "T"); Section (py "S") (repeat (py "l") 50)].

(** Collapsing whitespace: the words of a string joined by single
    spaces, [" ".join(s.split())]. *)
Definition collapse_ws (s : pystr) : pystr := join [SPACE] (split_ws s).

(** A line that is one unbreakable word of the text: a chunk of the
    split text holding none of the whitespace the wrapper splits on. *)
Definition long_word (text line : pystr) : Prop :=
  In line (textwrap.split_chunks text)
  /\ forallb (fun c => negb (textwrap.in_whitespace c)) line = true.

(** The two last steps of a pass of the wrapper's outer loop, on the
    chunks taken for the line: a trailing whitespace chunk is dropped,
    and what is left, if anything, becomes a line. *)
Definition drop_trailing (cur_line : list pystr) : list pystr :=
  if negb (is_nil cur_line) && is_nil (strip (last cur_line []))
  then removelast cur_line
  else cur_line.

Definition emit (lines cur_line : list pystr) : list pystr :=
  if negb (is_nil cur_line) then lines ++ [concat cur_line] else lines.

(** ** Reading the file back

    What a reader of the file does to find the numbers and the byte
    ranges the serializer's properties speak of. *)

(** The decimal digits of an integer, as bytes. *)
Definition digits (z : Z) : bytes :=
  bs (NilZero.string_of_int (Z.to_int z)).

Definition is_digit (b : byte) : bool :=
  ((48 <=? Byte.to_N b) && (Byte.to_N b <=? 57))%N.

Definition parse_int (s : bytes) : option Z :=
  option_map Z.of_int (NilZero.int_of_string (string_of_list_byte s)).

(** The bytes that follow the first occurrence of [marker]. *)
Fixpoint after (marker : bytes) (s : bytes) : option bytes :=
  match s with
  | [] => None
  | _ :: s' =>
      if starts_with Byte.eqb marker s
      then Some (skipn (length marker) s)
      else after marker s'
  end.

Fixpoint take_digits (s : bytes) : bytes :=
  match s with
  | [] => []
  | b :: s' => if is_digit b then b :: take_digits s' else []
  end.

(** [s] without its suffix [suffix], when it ends with it. *)
Definition strip_suffix (suffix s : bytes) : option bytes :=
  if starts_with Byte.eqb (rev suffix) (rev s)
  then Some (rev (skipn (length suffix) (rev s)))
  else None.

(** The integer written after [/Length] in an object. *)
Definition read_length (obj : bytes) : option Z :=
  match after (bs "/Length ") obj with
  | Some r => parse_int (take_digits r)
  | None => None
  end.

(** The bytes of a stream object between the [stream] line and the
    closing [endstream]. *)
Definition stream_payload (obj : bytes) : option bytes :=
  match after (bs "stream" ++ NL) obj with
  | Some r => strip_suffix (bs "endstream" ++ NL ++ bs "endobj" ++ NL) r
  | None => None
  end.

(** The rest of [s] after its first line. *)
Definition drop_line (s : bytes) : bytes :=
  match after NL s with
  | Some r => r
  | None => []
  end.

(** The [n]-th twenty-byte entry of the cross-reference table that
    starts at [xref_start]: after the [xref] line and the subsection
    line; entry 0 is the head of the free list. *)
Definition xref_entry (file : bytes) (xref_start : Z) (n : nat) : bytes :=
  firstn 20 (skipn (20 * n)
               (drop_line (drop_line (skipn (Z.to_nat xref_start) file)))).

(** The offset listed in that entry: its first ten bytes. *)
Definition xref_offset (file : bytes) (xref_start : Z) (n : nat) : option Z :=
  parse_int (firstn 10 (xref_entry file xref_start n)).

(** ["<n> 0 obj"] *)
Definition object_header (n : nat) : bytes :=
  digits (Z.of_nat n) ++ bs " 0 obj".

Definition ascii_byte (b : byte) : bool := (Byte.to_N b <? 128)%N.

(** ** The parts of the file

    What the serializer produces, written out: the header line, the
    five objects that do not depend on the content, the content object
    for a given stream, and the cross-reference table.  The table is
    fixed too, since the content object is the last one. *)

Definition pdf_header : bytes := bs "%PDF-1.4" ++ NL.

Definition fixed_objects : list bytes := [
  bs "1 0 obj" ++ NL ++ bs "<< /Type /Catalog /Pages 2 0 R >>" ++ NL
    ++ bs "endobj" ++ NL;
  bs "2 0 obj" ++ NL ++ bs "<< /Type /Pages /Kids [3 0 R] /Count 1 >>" ++ NL
    ++ bs "endobj" ++ NL;
  bs "3 0 obj" ++ NL
    ++ bs "<< /Type /Page /Parent 2 0 R /MediaBox [0 0 612 792] "
    ++ bs "/Resources << /Font << /Helvetica 4 0 R /Helvetica-Bold 5 0 R >> >> "
    ++ (bs "/Contents 6 0 R >>" ++ NL ++ bs "endobj" ++ NL);
  bs "4 0 obj" ++ NL
    ++ bs "<< /Type /Font /Subtype /Type1 /BaseFont /Helvetica >>" ++ NL
    ++ bs "endobj" ++ NL;
  bs "5 0 obj" ++ NL
    ++ bs "<< /Type /Font /Subtype /Type1 /BaseFont /Helvetica-Bold >>" ++ NL
    ++ bs "endobj" ++ NL
].

Definition contents_object (cs : bytes) : bytes :=
  bs "6 0 obj" ++ NL
  ++ (bs "<< /Length " ++ digits (len cs) ++ bs " >>" ++ NL ++ bs "stream" ++ NL)
  ++ cs
  ++ (bs "endstream" ++ NL ++ bs "endobj" ++ NL).

Definition xref_table : list bytes := [
  bs "xref" ++ NL;
  bs "0 7" ++ NL;
  bs "0000000000 65535 f " ++ NL;
  bs "0000000009 00000 n " ++ NL;
  bs "0000000058 00000 n " ++ NL;
  bs "0000000115 00000 n " ++ NL;
  bs "0000000270 00000 n " ++ NL;
  bs "0000000340 00000 n " ++ NL;
  bs "0000000415 00000 n " ++ NL
].

(** The bytes of the file the script writes. *)
Definition generated : bytes :=
  match script_pdf_bytes with
  | Ok data => data
  | Raise _ => []
  end.


(** ** Invariants the proofs use *)

(** The loop invariant: the lines so far decrease, and all of them
    lie above the cursor. *)
Definition baseline_inv (lines : list placement) (current_y : Z) : Prop :=
  decreasing lines /\ Forall (fun p => current_y < y p) lines.

(** Whitespace at the ends of a string. *)
Definition all_space (s : pystr) : bool := forallb isspace s.

Definition starts_space (s : pystr) : bool :=
  match s with
  | [] => true
  | c :: _ => isspace c
  end.

Definition ends_space (s : pystr) : bool := starts_space (rev s).

(** The kinds of chunk the wrapper splits a text into. *)
Definition ws_chunk (c : pystr) : Prop :=
  c <> [] /\ forallb textwrap.in_whitespace c = true.

Definition word_chunk (c : pystr) : Prop :=
  c <> [] /\ forallb (fun a => negb (textwrap.in_whitespace a)) c = true.

Definition chunk (c : pystr) : Prop := ws_chunk c \/ word_chunk c.

(** Chunks as [split] yields them: none empty, each of one kind, and
    of two neighbours one is whitespace. *)
Fixpoint alternating (cs : list pystr) : Prop :=
  match cs with
  | [] => True
  | c :: r =>
      chunk c
      /\ match r with
         | [] => True
         | d :: _ => ws_chunk c \/ ws_chunk d
         end
      /\ alternating r
  end.

(** ** The layout in closed form *)

(** Body lines stacked from [current_y] down, one leading apart. *)
Fixpoint stack (texts : list pystr) (current_y : Z) : list placement :=
  match texts with
  | [] => []
  | t :: texts' =>
      {| text := t; x := MARGIN_X; y := current_y;
         font := Helvetica; size := BODY_SIZE |}
      :: stack texts' (current_y - LEADING)
  end.

(** The wrapped lines of a bullet item with their prefixes, from
    index [i] on. *)
Fixpoint prefixed (i : nat) (wrapped : list pystr) : list pystr :=
  match wrapped with
  | [] => []
  | line :: wrapped' =>
      ((if Nat.eqb i 0 then py "- " else py "  ") ++ line)
      :: prefixed (S i) wrapped'
  end.

(** The texts a bullet item is drawn as: its first wrapped line after
    a dash, the others after two spaces. *)
Definition bullet_texts (item : pystr) : list pystr :=
  match wrap item MAX_CHARS_BODY_INDENT with
  | Ok (first :: rest) =>
      (py "- " ++ first) :: map (fun line => py "  " ++ line) rest
  | _ => []
  end.

(** The body texts of a section, below its heading. *)
Definition section_texts (s : section) : list pystr :=
  match s with
  | Title _ => []
  | Section _ body => body
  | Bullets _ items => flat_map bullet_texts items
  end.

Definition heading (t : pystr) (current_y : Z) : placement :=
  {| text := t; x := MARGIN_X; y := current_y;
     font := Helvetica_Bold; size := HEADING_SIZE |}.

(** A section, as opposed to the title entry. *)
Definition titled (s : section) : bool :=
  match s with
  | Title _ => false
  | _ => true
  end.

(** The three styles the layout draws in. *)
Definition styled (p : placement) : Prop :=
  x p = MARGIN_X
  /\ ((font p = Helvetica_Bold /\ (size p = TITLE_SIZE \/ size p = HEADING_SIZE))
      \/ (font p = Helvetica /\ size p = BODY_SIZE)).

(** ** Reading the content stream and the trailer back *)

(** Reading a literal string from just after its opening parenthesis:
    up to the first parenthesis that no backslash escapes, a backslash
    letting the next code point through.  Returns the text and what
    follows the closing parenthesis. *)
Fixpoint read_literal (s : pystr) : option (pystr * pystr) :=
  match s with
  | [] => None
  | c :: s' =>
      if (c =? RPAREN)%N then Some ([], s')
      else if (c =? BACKSLASH)%N then
        match s' with
        | d :: s'' =>
            match read_literal s'' with
            | Some (t, r) => Some (d :: t, r)
            | None => None
            end
        | [] => None
        end
      else
        match read_literal s' with
        | Some (t, r) => Some (c :: t, r)
        | None => None
        end
  end.

(** What precedes the literal in a content item: the font and the
    position. *)
Definition content_item_head (line : placement) : pystr :=
  py "BT" ++ [LF]
  ++ py "/" ++ font line ++ py " " ++ str_int (size line) ++ py " Tf" ++ [LF]
  ++ py "1 0 0 1 " ++ str_int (x line) ++ py " " ++ str_int (y line)
  ++ py " Tm" ++ [LF].

(** A string as latin-1 with [Replace] sees it, byte values as code
    points. *)
Definition latin1_view (s : pystr) : pystr :=
  map (fun c => Byte.to_N (latin1_or_qmark c)) s.

(** The digits a byte string ends with. *)
Definition take_digits_end (s : bytes) : bytes := rev (take_digits (rev s)).

(** The offset a reader finds at the end of the file: the number on
    the line between [startxref] and the closing [%%EOF]. *)
Definition read_startxref (file : bytes) : option Z :=
  match strip_suffix (NL ++ bs "%%EOF" ++ NL) file with
  | Some r =>
      let d := take_digits_end r in
      match strip_suffix (bs "startxref" ++ NL ++ d) r with
      | Some _ => parse_int d
      | None => None
      end
  | None => None
  end.

(** The trailer, for the offset of the cross-reference table. *)
Definition trailer_of (xref_start : Z) : bytes :=
  bs "trailer" ++ NL
  ++ (bs "<< /Size 7 /Root 1 0 R >>" ++ NL)
  ++ (bs "startxref" ++ NL)
  ++ (digits xref_start ++ NL)
  ++ (bs "%%EOF" ++ NL).

(** * Properties *)

(** ** Wrapping, on examples *)

Example wrap_ex1 :
  wrap (py "Run `npm run dev` to start the Vite dev server.") 20
  = Ok [py "Run `npm run dev` to"; py "start the Vite dev"; py "server."].
Proof. vm_compute. reflexivity. Qed.

Example wrap_ex2 :
  wrap (py "  a   bcdefgh-ijk  l ") 4
  = Ok [py "  a"; py "bcdefgh-ijk"; py "l"].
Proof. vm_compute. reflexivity. Qed.


(** ** The script, run *)

(** The hardcoded content lays out to 31 lines and leaves the cursor
    at 266, well above the bottom margin: nothing is dropped. *)
Example script_layout :
  (s <- sections ;;
   '(lines, current_y) <- layout_state s ;;
   Ok (length lines, current_y))
  = Ok (31%nat, 266).
Proof. vm_compute. reflexivity. Qed.

Example script_file_size : length generated = 3637%nat.
Proof. vm_compute. reflexivity. Qed.

(** ** Escaping *)

Section Escaping.

Lemma replace_from_single (c : codepoint) (new s : pystr) :
  replace_from [c] new 0 s
  = flat_map (fun a => if (a =? c)%N then new else [a]) s.
Proof.
  induction s as [|a s IH]; [reflexivity|].
  cbn [replace_from starts_with flat_map length Nat.sub].
  rewrite andb_true_r, (N.eqb_sym c a), IH.
  destruct (a =? c)%N; reflexivity.
Qed.

Lemma flat_map_flat_map {A B C} (f : B -> list C) (g : A -> list B) l :
  flat_map f (flat_map g l) = flat_map (fun a => flat_map f (g a)) l.
Proof.
  induction l as [|a l IH]; [reflexivity|].
  simpl. rewrite flat_map_app, IH. reflexivity.
Qed.

Lemma escape_pdf_text_flat_map (t : pystr) :
  escape_pdf_text t = flat_map escape_codepoint t.
Proof.
  unfold escape_pdf_text, replace.
  rewrite !replace_from_single, !flat_map_flat_map.
  apply flat_map_ext. intro c.
  unfold escape_codepoint, special, BACKSLASH, LPAREN, RPAREN.
  destruct (c =? 92)%N eqn:E1; [apply N.eqb_eq in E1; subst c; reflexivity|].
  destruct (c =? 40)%N eqn:E2; [apply N.eqb_eq in E2; subst c; reflexivity|].
  destruct (c =? 41)%N eqn:E3; [apply N.eqb_eq in E3; subst c; reflexivity|].
  simpl. rewrite E2. simpl. rewrite E3. reflexivity.
Qed.

Lemma special_not_backslash c : special c = false -> (c =? BACKSLASH)%N = false.
Proof.
  unfold special. intro H.
  apply orb_false_elim in H as [H _]. apply orb_false_elim in H as [H _].
  exact H.
Qed.

Lemma unescape_flat_map (t : pystr) :
  unescape_pdf_text (flat_map escape_codepoint t) = t.
Proof.
  induction t as [|c t IH]; [reflexivity|].
  cbn [flat_map]. unfold escape_codepoint at 1.
  destruct (special c) eqn:S.
  - cbn [app unescape_pdf_text]. rewrite S, N.eqb_refl. cbn [andb].
    rewrite IH. reflexivity.
  - cbn [app]. pose proof (special_not_backslash c S) as NB.
    destruct (flat_map escape_codepoint t) as [|d r] eqn:F.
    + cbn. cbn in IH. rewrite <- IH. reflexivity.
    + cbn [unescape_pdf_text]. rewrite NB. cbn [andb].
      f_equal. exact IH.
Qed.

Lemma all_escaped_flat_map (t : pystr) :
  all_escaped (flat_map escape_codepoint t) = true.
Proof.
  induction t as [|c t IH]; [reflexivity|].
  cbn [flat_map]. unfold escape_codepoint at 1.
  destruct (special c) eqn:S.
  - cbn [app all_escaped]. rewrite N.eqb_refl, S, IH. reflexivity.
  - cbn [app all_escaped].
    rewrite (special_not_backslash c S), S, IH. reflexivity.
Qed.

Lemma escape_with_head S t p :
  S p = true -> p <> BACKSLASH ->
  match escape_with S t with
  | [] => True
  | c :: _ => (p =? c)%N = false
  end.
Proof.
  intros Sp Np. destruct t as [|c t]; [exact I|].
  unfold escape_with. cbn [flat_map]. destruct (S c) eqn:Sc; cbn [app].
  - apply N.eqb_neq. exact Np.
  - apply N.eqb_neq. intros ->. congruence.
Qed.

(** Undoing one escape sequence takes its code point out of the set. *)
Lemma unreplace_step S p t :
  S p = true -> S BACKSLASH = true ->
  replace [BACKSLASH; p] [p] (escape_with S t)
  = escape_with (fun c => S c && negb (c =? p)%N) t.
Proof.
  intros Sp Sb. unfold replace. induction t as [|c t IH]; [reflexivity|].
  unfold escape_with in *. cbn [flat_map].
  destruct (c =? p)%N eqn:Ecp.
  - apply N.eqb_eq in Ecp. subst c. rewrite Sp. cbn [andb negb app].
    cbn [replace_from starts_with length Nat.sub app].
    rewrite !N.eqb_refl. cbn [andb app]. rewrite IH. reflexivity.
  - destruct (S c) eqn:Sc; cbn [andb negb app].
    + cbn [replace_from starts_with].
      rewrite N.eqb_refl, (N.eqb_sym p c), Ecp. cbn [andb].
      destruct (BACKSLASH =? c)%N eqn:Ebc; cbn [andb].
      * apply N.eqb_eq in Ebc. subst c.
        pose proof (escape_with_head S t p Sp) as Hd. unfold escape_with in Hd.
        destruct (flat_map _ t) as [|d r] eqn:F.
        -- cbn [starts_with]. rewrite <- IH. reflexivity.
        -- rewrite Hd by (intros ->; rewrite N.eqb_refl in Ecp; discriminate).
           cbn [andb]. rewrite <- IH. reflexivity.
      * rewrite <- IH. reflexivity.
    + cbn [replace_from starts_with].
      replace (BACKSLASH =? c)%N with false
        by (symmetry; apply N.eqb_neq; intros <-; congruence).
      cbn [andb]. rewrite <- IH. reflexivity.
Qed.

Lemma escape_with_none S t : (forall c, S c = false) -> escape_with S t = t.
Proof.
  intro H. unfold escape_with. induction t as [|c t IH]; [reflexivity|].
  cbn [flat_map]. rewrite H, IH. reflexivity.
Qed.

Lemma unescape_by_replace_flat_map (t : pystr) :
  unescape_by_replace (flat_map escape_codepoint t) = t.
Proof.
  unfold unescape_by_replace.
  change (flat_map escape_codepoint t) with (escape_with special t).
  rewrite unreplace_step by reflexivity.
  rewrite unreplace_step by reflexivity.
  rewrite unreplace_step by reflexivity.
  apply escape_with_none. intro c. unfold special, BACKSLASH, LPAREN, RPAREN.
  destruct (c =? 92)%N, (c =? 40)%N, (c =? 41)%N; reflexivity.
Qed.

End Escaping.

(** C4.  For every string, [escape_pdf_text] puts a backslash in front
    of each backslash, open parenthesis and close parenthesis and
    leaves the other code points alone; reversing the three escape
    sequences gives the input back, read in one pass or undone by
    three replacements; and the output holds no unescaped parenthesis
    or backslash. *)
Theorem escape_pdf_text_roundtrip (t : pystr) :
  escape_pdf_text t
  = flat_map (fun c => if special c then [BACKSLASH; c] else [c]) t
  /\ unescape_pdf_text (escape_pdf_text t) = t
  /\ unescape_by_replace (escape_pdf_text t) = t
  /\ all_escaped (escape_pdf_text t) = true.
Proof.
  rewrite escape_pdf_text_flat_map. split; [reflexivity|]. split; [|split].
  - apply unescape_flat_map.
  - apply unescape_by_replace_flat_map.
  - apply all_escaped_flat_map.
Qed.

(** ** Encoding *)

Section Encoding.

Lemma encode_replace_total limit (s : pystr) :
  encode limit Replace s
  = Ok (map (fun c => match encode_char limit c with
                      | Some b => b
                      | None => x3f
                      end) s).
Proof.
  induction s as [|c s IH]; [reflexivity|].
  cbn [encode map]. rewrite IH.
  destruct (encode_char limit c); reflexivity.
Qed.

Lemma of_N_small (c : N) : (c < 256)%N -> exists b, Byte.of_N c = Some b /\ Byte.to_N b = c.
Proof.
  intro H. destruct (Byte.of_N c) as [b|] eqn:E.
  - exists b. split; [reflexivity|]. apply Byte.to_of_N in E. exact E.
  - apply Byte.of_N_None_iff in E. lia.
Qed.

Lemma latin1_or_qmark_spec (c : codepoint) :
  Byte.to_N (latin1_or_qmark c) = if (c <? 256)%N then c else 63%N.
Proof.
  unfold latin1_or_qmark, encode_char.
  destruct (c <? 256)%N eqn:E; [|reflexivity].
  apply N.ltb_lt in E. destruct (of_N_small c E) as (b & -> & Hb). exact Hb.
Qed.

End Encoding.

(** C8.  Building the content stream never raises: whatever the
    placements hold, the stream is the text code point by code point,
    each code point below 256 as its own byte and every other one
    replaced by a question mark.  (The strict handler does raise on
    such a code point.) *)
Theorem content_stream_never_raises (lines : list placement) :
  content_stream lines
  = Ok (map latin1_or_qmark (join [] (content lines)))
  /\ (forall c, Byte.to_N (latin1_or_qmark c) = if (c <? 256)%N then c else 63%N)
  /\ encode_latin1 Strict [8364%N] = Raise UnicodeEncodeError.
Proof.
  split; [apply encode_replace_total|]. split.
  - apply latin1_or_qmark_spec.
  - reflexivity.
Qed.

(** ** Layout: baselines *)

Section Baselines.

Lemma decreasing_snoc lines p :
  decreasing lines -> Forall (fun q => y p < y q) lines ->
  decreasing (lines ++ [p]).
Proof.
  unfold decreasing. induction lines as [|q lines IH]; intros D A; simpl.
  - constructor; constructor.
  - inversion D; subst. inversion A; subst.
    constructor; [apply IH; assumption|].
    apply Forall_app. split; [assumption|]. constructor; [assumption|constructor].
Qed.

Lemma add_text_inv lines current_y t px f sz d :
  0 < d -> baseline_inv lines current_y ->
  baseline_inv (add_text lines t px current_y f sz) (current_y - d).
Proof.
  intros Hd [D A]. unfold add_text. split.
  - apply decreasing_snoc; [assumption|]. exact A.
  - apply Forall_app. split.
    + eapply Forall_impl; [|exact A]. simpl. intros; lia.
    + constructor; [simpl; lia|constructor].
Qed.

Lemma baseline_inv_lower lines current_y d :
  0 <= d -> baseline_inv lines current_y -> baseline_inv lines (current_y - d).
Proof.
  intros Hd [D A]. split; [assumption|].
  eapply Forall_impl; [|exact A]. simpl. intros; lia.
Qed.

Lemma layout_body_inv body : forall lines current_y,
  baseline_inv lines current_y ->
  baseline_inv (fst (layout_body body lines current_y))
               (snd (layout_body body lines current_y)).
Proof.
  induction body as [|line body IH]; intros lines current_y I; simpl; [assumption|].
  apply IH. apply add_text_inv; [reflexivity|assumption].
Qed.

Lemma layout_wrapped_inv wrapped : forall i lines current_y,
  baseline_inv lines current_y ->
  baseline_inv (fst (layout_wrapped i wrapped lines current_y))
               (snd (layout_wrapped i wrapped lines current_y)).
Proof.
  induction wrapped as [|line wrapped IH]; intros i lines current_y I; simpl;
    [assumption|].
  apply IH. apply add_text_inv; [reflexivity|assumption].
Qed.

Lemma layout_items_inv items : forall lines current_y lines' current_y',
  baseline_inv lines current_y ->
  layout_items items lines current_y = Ok (lines', current_y') ->
  baseline_inv lines' current_y'.
Proof.
  induction items as [|item items IH]; intros lines current_y lines' cy' I E;
    cbn [layout_items] in E.
  - inversion E; subst. assumption.
  - destruct (wrap item MAX_CHARS_BODY_INDENT) as [wrapped|e]; cbn [bind] in E;
      [|discriminate].
    pose proof (layout_wrapped_inv wrapped 0 lines current_y I) as I'.
    destruct (layout_wrapped 0 wrapped lines current_y) as [l1 c1].
    eapply IH; [exact I'|exact E].
Qed.

Lemma layout_section_inv s lines current_y lines' current_y' :
  baseline_inv lines current_y ->
  layout_section s lines current_y = Ok (lines', current_y') ->
  baseline_inv lines' current_y'.
Proof.
  intros I E. unfold layout_section in E.
  destruct s as [t | t body | t items]; simpl in E; [discriminate| |].
  - pose proof (layout_body_inv body _ _
                  (add_text_inv lines current_y t MARGIN_X Helvetica_Bold
                     HEADING_SIZE 16 eq_refl I)) as I'.
    destruct (layout_body body _ _) as [l1 c1]. inversion E; subst.
    apply baseline_inv_lower; [lia|exact I'].
  - destruct (layout_items items _ _) as [[l1 c1]|e] eqn:EI; simpl in E;
      [|discriminate].
    inversion E; subst.
    apply baseline_inv_lower; [lia|].
    eapply layout_items_inv; [|exact EI].
    apply add_text_inv; [reflexivity|assumption].
Qed.

Lemma layout_loop_inv secs : forall lines current_y lines' current_y',
  baseline_inv lines current_y ->
  layout_loop secs lines current_y = Ok (lines', current_y') ->
  baseline_inv lines' current_y'.
Proof.
  induction secs as [|s secs IH]; intros lines current_y lines' cy' I E;
    simpl in E.
  - inversion E; subst. assumption.
  - destruct (layout_section s lines current_y) as [[l1 c1]|e] eqn:ES;
      simpl in E; [|discriminate].
    pose proof (layout_section_inv _ _ _ _ _ I ES) as I'.
    destruct (c1 <? MARGIN_BOTTOM).
    + inversion E; subst. assumption.
    + eapply IH; [exact I'|exact E].
Qed.

Lemma layout_state_inv sections lines current_y :
  layout_state sections = Ok (lines, current_y) ->
  baseline_inv lines current_y.
Proof.
  unfold layout_state. destruct sections as [|s0 secs]; [discriminate|].
  destruct (get_text s0) as [t|e]; simpl; [|discriminate].
  apply layout_loop_inv.
  apply (add_text_inv [] (PAGE_HEIGHT - MARGIN_TOP) t MARGIN_X Helvetica_Bold
           TITLE_SIZE 22 eq_refl).
  split; constructor.
Qed.

Lemma layout_inversion sections lines :
  layout sections = Ok lines ->
  exists current_y, layout_state sections = Ok (lines, current_y).
Proof.
  unfold layout. destruct (layout_state sections) as [[l c]|e]; simpl;
    [|discriminate].
  intro E. inversion E; subst. exists c. reflexivity.
Qed.

End Baselines.

(** C9.  For every section list the layout accepts, the y coordinates
    of the placements strictly decrease in list order: each placement
    lies below every earlier one, so no two share a baseline. *)
Theorem baselines_strictly_decreasing (sections : list section)
    (lines : list placement) :
  layout sections = Ok lines ->
  StronglySorted (fun p q => y q < y p) lines.
Proof.
  intro E. destruct (layout_inversion _ _ E) as [cy E'].
  exact (proj1 (layout_state_inv _ _ _ E')).
Qed.

Lemma baselines_strictly_decreasing_witness :
  StronglySorted (fun p q => y q < y p)
    [ {| text := py "T"; x := 54; y := 738; font := Helvetica_Bold; size := 18 |};
      {| text := py "B"; x := 54; y := 716; font := Helvetica_Bold; size := 12 |};
      {| text := py "- a"; x := 54; y := 700; font := Helvetica; size := 11 |};
      {| text := py "  b"; x := 54; y := 686; font := Helvetica; size := 11 |} ].
Proof.
  apply (baselines_strictly_decreasing
           [Title (py "T");
            Bullets (py "B")
              [py "a" ++ repeat SPACE 86 ++ py "b"]]).
  vm_compute. reflexivity.
Defined.

(** C10.  For some section list the lines list holds placements below
    the bottom margin: the section in which the cursor passes the
    margin is still drawn in full (here all fifty body lines of the
    only section, the last of them at y = 14). *)
Theorem draws_below_bottom_margin :
  exists (sections : list section) (lines : list placement),
    layout sections = Ok lines
    /\ Exists (fun p => y p < MARGIN_BOTTOM) lines
    /\ length lines = 52%nat
    /\ option_map y (nth_error lines 51) = Some 14.
Proof.
  exists overflow_in_last_section.
  eexists. split; [vm_compute; reflexivity|]. split; [|split; reflexivity].
  apply Exists_exists.
  exists {| text := py "l"; x := 54; y := 14; font := Helvetica; size := 11 |}.
  split; [|reflexivity].
  apply (nth_error_In _ 51). reflexivity.
Qed.

(** ** Layout: overflow *)

Section Overflow.

Lemma layout_body_length body : forall lines current_y,
  length (fst (layout_body body lines current_y))
  = (length lines + length body)%nat.
Proof.
  induction body as [|line body IH]; intros lines current_y; simpl; [lia|].
  rewrite IH. unfold add_text. rewrite length_app. simpl. lia.
Qed.

Lemma layout_wrapped_length wrapped : forall i lines current_y,
  length (fst (layout_wrapped i wrapped lines current_y))
  = (length lines + length wrapped)%nat.
Proof.
  induction wrapped as [|line wrapped IH]; intros i lines current_y; simpl; [lia|].
  rewrite IH. unfold add_text. rewrite length_app. simpl. lia.
Qed.

Lemma layout_items_length items : forall lines current_y lines' current_y',
  layout_items items lines current_y = Ok (lines', current_y') ->
  (length lines <= length lines')%nat.
Proof.
  induction items as [|item items IH]; intros lines current_y lines' cy' E;
    cbn [layout_items] in E.
  - inversion E; subst. lia.
  - destruct (wrap item MAX_CHARS_BODY_INDENT) as [wrapped|e]; cbn [bind] in E;
      [|discriminate].
    pose proof (layout_wrapped_length wrapped 0 lines current_y) as L.
    destruct (layout_wrapped 0 wrapped lines current_y) as [l1 c1].
    simpl in L. apply IH in E. lia.
Qed.

(** Every section draws at least its heading. *)
Lemma layout_section_grows s lines current_y lines' current_y' :
  layout_section s lines current_y = Ok (lines', current_y') ->
  (length lines < length lines')%nat.
Proof.
  intro E. unfold layout_section in E.
  destruct s as [t | t body | t items]; cbn [get_title bind] in E; [discriminate| |].
  - pose proof (layout_body_length body
      (add_text lines t MARGIN_X current_y Helvetica_Bold HEADING_SIZE)
      (current_y - 16)) as L.
    destruct (layout_body body _ _) as [l1 c1]. inversion E; subst.
    simpl in L. unfold add_text in L. rewrite length_app in L. simpl in L. lia.
  - destruct (layout_items items _ _) as [[l1 c1]|e] eqn:EI; cbn [bind] in E;
      [|discriminate].
    inversion E; subst. apply layout_items_length in EI.
    unfold add_text in EI. rewrite length_app in EI. simpl in EI. lia.
Qed.

Lemma layout_loop_all_grows secs : forall lines current_y lines' current_y',
  layout_loop_all secs lines current_y = Ok (lines', current_y') ->
  (length lines + length secs <= length lines')%nat.
Proof.
  induction secs as [|s secs IH]; intros lines current_y lines' cy' E;
    cbn [layout_loop_all] in E.
  - inversion E; subst. simpl. lia.
  - destruct (layout_section s lines current_y) as [[l1 c1]|e] eqn:ES;
      cbn [bind] in E; [|discriminate].
    apply layout_section_grows in ES. apply IH in E. simpl. lia.
Qed.

Lemma layout_loop_all_app secs1 secs2 lines current_y :
  layout_loop_all (secs1 ++ secs2) lines current_y
  = ('(l, c) <- layout_loop_all secs1 lines current_y ;;
     layout_loop_all secs2 l c).
Proof.
  revert lines current_y.
  induction secs1 as [|s secs1 IH]; intros lines current_y; [reflexivity|].
  cbn [app layout_loop_all].
  destruct (layout_section s lines current_y) as [[l1 c1]|e]; cbn [bind];
    [apply IH|reflexivity].
Qed.

(** What the loop with the check computes is what the loop without
    it computes on a prefix of the sections: the prefix ends at the
    first section after which the cursor is below the margin, or is
    the whole list. *)
Lemma layout_loop_prefix secs : forall lines current_y lines' current_y',
  layout_loop secs lines current_y = Ok (lines', current_y') ->
  exists k,
    (k <= length secs)%nat
    /\ layout_loop_all (firstn k secs) lines current_y = Ok (lines', current_y')
    /\ (k = length secs \/ current_y' < MARGIN_BOTTOM)
    /\ (forall j lj cj, (0 < j < k)%nat ->
          layout_loop_all (firstn j secs) lines current_y = Ok (lj, cj) ->
          MARGIN_BOTTOM <= cj).
Proof.
  induction secs as [|s secs IH]; intros lines current_y lines' cy' E;
    cbn [layout_loop] in E.
  - exists 0%nat. inversion E; subst. simpl.
    repeat split; auto; intros; lia.
  - destruct (layout_section s lines current_y) as [[l1 c1]|e] eqn:ES;
      cbn [bind] in E; [|discriminate].
    destruct (c1 <? MARGIN_BOTTOM) eqn:EB.
    + inversion E; subst. exists 1%nat. simpl. rewrite ES. cbn [bind].
      apply Z.ltb_lt in EB. repeat split; auto; intros; lia.
    + apply Z.ltb_ge in EB.
      destruct (IH _ _ _ _ E) as (k & Hk & Hall & Hstop & Hfirst).
      exists (S k). cbn [firstn layout_loop_all length]. rewrite ES. cbn [bind].
      repeat split; [lia|exact Hall|destruct Hstop; [left; lia|right; assumption]|].
      intros j lj cj Hj Ej. destruct j as [|j]; [lia|].
      cbn [firstn layout_loop_all] in Ej. rewrite ES in Ej. cbn [bind] in Ej.
      destruct j as [|j].
      * simpl in Ej. inversion Ej; subst. assumption.
      * apply (Hfirst (S j) lj cj); [lia|exact Ej].
Qed.

End Overflow.

(** C1, as the spec states it, fails: a title and one section of
    fifty body lines lay out to 52 lines, the cursor ends at -4, far
    below the bottom margin, and yet all 52 lines are emitted: the
    overflow is in the last section, nothing is left to drop. *)
Lemma overflow_truncation_counterexample :
  exists lines current_y,
    layout_all_state overflow_in_last_section = Ok (lines, current_y)
    /\ current_y < MARGIN_BOTTOM
    /\ layout overflow_in_last_section = Ok lines
    /\ ~ (length lines < length lines)%nat.
Proof.
  eexists. exists (-4).
  split; [vm_compute; reflexivity|].
  split; [reflexivity|].
  split; [vm_compute; reflexivity|].
  lia.
Qed.

(** C1, amended.  The cursor is checked only after a section is
    finished, and the walk stops at the first section after which the
    cursor is below the bottom margin.  So the lines drawn are exactly
    the full layout of the first [k] entries of [sections] (the title
    and [k - 1] whole sections, never part of a section); either [k]
    is the whole list or the cursor ended below the bottom margin; no
    earlier section left the cursor below the margin; and when
    sections remain after the [k]-th entry, strictly fewer lines are
    drawn than the full input lays out. *)
Theorem overflow_truncates_at_section_boundary (sections : list section)
    (lines : list placement) :
  layout sections = Ok lines ->
  exists k current_y,
    (1 <= k <= length sections)%nat
    /\ layout_all_state (firstn k sections) = Ok (lines, current_y)
    /\ (k = length sections \/ current_y < MARGIN_BOTTOM)
    /\ (forall j lj cj, (1 < j < k)%nat ->
          layout_all_state (firstn j sections) = Ok (lj, cj) ->
          MARGIN_BOTTOM <= cj)
    /\ (forall full cf, (k < length sections)%nat ->
          layout_all_state sections = Ok (full, cf) ->
          (length lines < length full)%nat).
Proof.
  intro E. destruct (layout_inversion _ _ E) as [cy E'].
  unfold layout_state in E'. destruct sections as [|s0 secs]; [discriminate|].
  destruct (get_text s0) as [t|e] eqn:ET; cbn [bind] in E'; [|discriminate].
  destruct (layout_loop_prefix _ _ _ _ _ E') as (k & Hk & Hall & Hstop & Hfirst).
  exists (S k), cy. cbn [length firstn].
  split; [lia|]. split.
  { unfold layout_all_state. rewrite ET. cbn [bind]. exact Hall. }
  split; [destruct Hstop; [left; lia|right; assumption]|]. split.
  - intros j lj cj Hj Ej. destruct j as [|j]; [lia|].
    cbn [firstn] in Ej. unfold layout_all_state in Ej. rewrite ET in Ej.
    cbn [bind] in Ej. apply (Hfirst j lj cj); [lia|exact Ej].
  - intros full cf Hlt Ef. unfold layout_all_state in Ef. rewrite ET in Ef.
    cbn [bind] in Ef.
    rewrite <- (firstn_skipn k secs) in Ef.
    rewrite layout_loop_all_app, Hall in Ef. cbn [bind] in Ef.
    apply layout_loop_all_grows in Ef.
    rewrite length_skipn in Ef. lia.
Qed.

Lemma overflow_truncates_at_section_boundary_witness :
  exists k current_y,
    (1 <= k <= 3)%nat
    /\ layout_all_state
         (firstn k (overflow_in_last_section ++ [Section (py "U") [py "m"]]))
       = Ok (fst (match layout_all_state overflow_in_last_section with
                  | Ok r => r
                  | Raise _ => ([], 0)
                  end), current_y)
    /\ (k = 3%nat \/ current_y < MARGIN_BOTTOM).
Proof.
  destruct (overflow_truncates_at_section_boundary
              (overflow_in_last_section ++ [Section (py "U") [py "m"]])
              (fst (match layout_all_state overflow_in_last_section with
                    | Ok r => r
                    | Raise _ => ([], 0)
                    end)))
    as (k & cy & Hk & Hall & Hstop & _).
  - vm_compute. reflexivity.
  - exists k, cy. repeat split; try apply Hk; assumption.
Defined.

(** ** Wrapping *)

Section Whitespace.

Lemma lstrip_nil s : lstrip s = [] <-> all_space s = true.
Proof.
  induction s as [|c s IH]; simpl; [tauto|].
  destruct (isspace c); simpl; [exact IH|].
  split; discriminate.
Qed.

Lemma lstrip_all_space s : all_space (lstrip s) = true -> lstrip s = [].
Proof.
  induction s as [|c s IH]; simpl; [reflexivity|].
  destruct (isspace c) eqn:E; [exact IH|].
  simpl. rewrite E. discriminate.
Qed.

Lemma all_space_rev s : all_space (rev s) = all_space s.
Proof.
  unfold all_space. induction s as [|c s IH]; [reflexivity|].
  simpl. rewrite forallb_app, IH. simpl. rewrite andb_true_r. apply andb_comm.
Qed.

Lemma strip_nil s : strip s = [] <-> all_space s = true.
Proof.
  unfold strip, rstrip. split.
  - intro H. apply (f_equal (@rev codepoint)) in H. rewrite List.rev_involutive in H.
    simpl in H. apply lstrip_nil in H. rewrite all_space_rev in H.
    apply lstrip_all_space in H. apply lstrip_nil. exact H.
  - intro H. apply lstrip_nil in H. rewrite H. reflexivity.
Qed.

Lemma is_nil_true {A} (l : list A) : is_nil l = true <-> l = [].
Proof. destruct l; simpl; split; congruence. Qed.

Lemma in_whitespace_isspace c :
  textwrap.in_whitespace c = true -> isspace c = true.
Proof.
  unfold textwrap.in_whitespace, textwrap.whitespace. simpl.
  rewrite !orb_true_iff, !N.eqb_eq.
  intros [->|[->|[->|[->|[->|[->|H]]]]]]; try reflexivity; discriminate.
Qed.

Lemma split_ws_aux_all_space s : forall cur,
  all_space s = true ->
  split_ws_aux cur s = if is_nil cur then [] else [cur].
Proof.
  induction s as [|c s IH]; intros cur H; simpl; [reflexivity|].
  simpl in H. apply andb_true_iff in H as [Hc Hs]. rewrite Hc.
  rewrite (IH [] Hs). reflexivity.
Qed.

Lemma split_ws_all_space s : all_space s = true -> split_ws s = [].
Proof. intro H. apply (split_ws_aux_all_space s [] H). Qed.

Lemma split_ws_aux_app_starts a b : forall cur,
  starts_space b = true ->
  split_ws_aux cur (a ++ b) = split_ws_aux cur a ++ split_ws b.
Proof.
  induction a as [|c a IH]; intros cur H; simpl.
  - destruct b as [|d b]; simpl; [rewrite List.app_nil_r; reflexivity|].
    simpl in H. unfold split_ws. simpl. rewrite H.
    destruct (is_nil cur); reflexivity.
  - rewrite !(IH _ H). destruct (isspace c); [|reflexivity].
    destruct (is_nil cur); reflexivity.
Qed.

Lemma split_ws_app a b :
  ends_space a = true \/ starts_space b = true ->
  split_ws (a ++ b) = split_ws a ++ split_ws b.
Proof.
  intros [H|H]; [|apply split_ws_aux_app_starts; exact H].
  destruct (rev a) as [|w ra] eqn:E.
  - apply (f_equal (@rev codepoint)) in E. rewrite List.rev_involutive in E.
    subst a. reflexivity.
  - apply (f_equal (@rev codepoint)) in E. rewrite List.rev_involutive in E.
    simpl in E. subst a. unfold ends_space in H. rewrite List.rev_app_distr in H.
    simpl in H. rewrite <- List.app_assoc. simpl. unfold split_ws.
    rewrite (split_ws_aux_app_starts (rev ra) (w :: b)) by exact H.
    rewrite (split_ws_aux_app_starts (rev ra) [w]) by exact H.
    unfold split_ws. simpl. rewrite H. rewrite List.app_nil_r. reflexivity.
Qed.

Lemma split_ws_join lines :
  split_ws (join [SPACE] lines) = concat (map split_ws lines).
Proof.
  induction lines as [|p lines IH]; [reflexivity|].
  destruct lines as [|q lines].
  - simpl. rewrite List.app_nil_r. reflexivity.
  - change (join [SPACE] (p :: q :: lines))
      with (p ++ SPACE :: join [SPACE] (q :: lines)).
    rewrite split_ws_app by (right; reflexivity).
    change (split_ws (SPACE :: join [SPACE] (q :: lines)))
      with (split_ws (join [SPACE] (q :: lines))).
    rewrite IH. reflexivity.
Qed.

(** Tab expansion and whitespace translation keep the words. *)
Lemma split_ws_aux_spaces n r : forall cur,
  split_ws_aux cur (repeat SPACE (S n) ++ r)
  = if is_nil cur then split_ws r else cur :: split_ws r.
Proof.
  assert (Z0 : forall m, split_ws_aux [] (repeat SPACE m ++ r) = split_ws r).
  { induction m as [|m IH]; [reflexivity|]. simpl. exact IH. }
  intro cur. simpl. rewrite Z0. reflexivity.
Qed.

Lemma split_ws_aux_expandtabs tabsize s : (0 < tabsize)%N ->
  forall line_pos cur,
    split_ws_aux cur (textwrap.expandtabs_from tabsize line_pos s)
    = split_ws_aux cur s.
Proof.
  intro Ht. induction s as [|c s IH]; intros line_pos cur; [reflexivity|].
  cbn [textwrap.expandtabs_from].
  destruct (c =? 9)%N eqn:E.
  - apply N.eqb_eq in E. subst c.
    replace (0 <? tabsize)%N with true by (symmetry; apply N.ltb_lt; exact Ht).
    pose proof (N.mod_lt line_pos tabsize) as M.
    destruct (N.to_nat (tabsize - line_pos mod tabsize)) as [|n] eqn:En; [lia|].
    rewrite split_ws_aux_spaces. cbn [split_ws_aux]. cbn [isspace].
    unfold split_ws. rewrite !IH. reflexivity.
  - cbn [split_ws_aux]. rewrite !IH. reflexivity.
Qed.

Lemma split_ws_aux_translate s : forall cur,
  split_ws_aux cur (textwrap.translate_whitespace s) = split_ws_aux cur s.
Proof.
  unfold textwrap.translate_whitespace.
  induction s as [|c s IH]; intro cur; [reflexivity|].
  cbn [map split_ws_aux].
  destruct (textwrap.in_whitespace c) eqn:E.
  - rewrite (in_whitespace_isspace c E). cbn [isspace].
    change (isspace SPACE) with true. cbv iota. rewrite IH. reflexivity.
  - rewrite !IH. reflexivity.
Qed.

Lemma split_ws_munge text :
  split_ws (textwrap.munge_whitespace text) = split_ws text.
Proof.
  unfold textwrap.munge_whitespace, split_ws, textwrap.expandtabs.
  rewrite split_ws_aux_translate.
  apply split_ws_aux_expandtabs. reflexivity.
Qed.

End Whitespace.

Section Chunks.

Import textwrap.

Lemma ws_chunk_all_space c : ws_chunk c -> all_space c = true.
Proof.
  intros [_ H]. unfold all_space. rewrite forallb_forall in *.
  intros a Ha. apply in_whitespace_isspace, H, Ha.
Qed.

Lemma ws_chunk_starts c r : ws_chunk c -> starts_space (c ++ r) = true.
Proof.
  intros [N H]. destruct c as [|a c]; [congruence|].
  simpl in *. apply andb_true_iff in H as [H _].
  apply in_whitespace_isspace, H.
Qed.

Lemma ws_chunk_ends c : ws_chunk c -> ends_space c = true.
Proof.
  intros [N H]. unfold ends_space.
  destruct (rev c) as [|a rc] eqn:E.
  - reflexivity.
  - simpl. apply in_whitespace_isspace.
    rewrite forallb_forall in H. apply H. apply in_rev. rewrite E. left. reflexivity.
Qed.

Lemma chunk_strip_nonempty c :
  chunk c -> strip c <> [] -> word_chunk c.
Proof.
  intros [W|W] S; [|exact W].
  exfalso. apply S. apply strip_nil. apply ws_chunk_all_space, W.
Qed.

Lemma alternating_app a b :
  alternating (a ++ b) -> alternating a /\ alternating b.
Proof.
  induction a as [|c a IH]; simpl; [tauto|].
  intros (C & Adj & A). destruct (IH A) as [Aa Ab].
  repeat split; try assumption.
  destruct a as [|d a]; [exact I|exact Adj].
Qed.

Lemma alternating_Forall cs : alternating cs -> Forall chunk cs.
Proof.
  induction cs as [|c cs IH]; simpl; [constructor|].
  intros (C & _ & A). constructor; auto.
Qed.

(** The words of a run of chunks are the words of its chunks. *)
Lemma split_ws_concat cs :
  alternating cs -> split_ws (concat cs) = concat (map split_ws cs).
Proof.
  induction cs as [|c cs IH]; [reflexivity|].
  intros (C & Adj & A). cbn [concat map].
  rewrite split_ws_app.
  - rewrite (IH A). reflexivity.
  - destruct cs as [|d cs]; [right; reflexivity|].
    destruct Adj as [W|W].
    + left. apply ws_chunk_ends, W.
    + right. cbn [concat]. apply ws_chunk_starts, W.
Qed.

Lemma split_concat text : concat (split text) = text.
Proof.
  induction text as [|c text IH]; [reflexivity|].
  cbn [split]. destruct (split text) as [|[|d w] rest].
  - simpl in *. subst. reflexivity.
  - simpl in *. subst. reflexivity.
  - destruct (Bool.eqb _ _); simpl in *; subst; reflexivity.
Qed.

Lemma chunk_single c : chunk [c].
Proof.
  unfold chunk, ws_chunk, word_chunk. simpl.
  destruct (in_whitespace c); [left|right]; (split; [discriminate|reflexivity]).
Qed.

Lemma split_alternating text : alternating (split text).
Proof.
  induction text as [|c text IH]; [exact I|].
  cbn [split]. destruct (split text) as [|[|d w] rest].
  - simpl. auto using chunk_single.
  - destruct IH as ([[N _]|[N _]] & _); exfalso; apply N; reflexivity.
  - destruct IH as (C & Adj & A).
    destruct (Bool.eqb (in_whitespace c) (in_whitespace d)) eqn:E.
    + apply eqb_prop in E.
      assert (W : ws_chunk (d :: w) -> ws_chunk (c :: d :: w)).
      { intros [_ H]. split; [discriminate|]. simpl in *.
        apply andb_true_iff in H as [Hd Hw]. rewrite E, Hd, Hw. reflexivity. }
      cbn [alternating]. repeat split; try assumption.
      * destruct C as [Wd|[_ H]]; [left; apply W, Wd|].
        right. split; [discriminate|]. simpl in *.
        apply andb_true_iff in H as [Hd Hw]. rewrite E, Hd, Hw. reflexivity.
      * destruct rest as [|e rest]; [exact I|].
        destruct Adj as [Wd|We]; [left; apply W, Wd|right; exact We].
    + cbn [alternating]. repeat split; try assumption; [apply chunk_single|].
      apply eqb_false_iff in E.
      destruct (in_whitespace c) eqn:Ec.
      * left. split; [discriminate|]. simpl. rewrite Ec. reflexivity.
      * right. destruct C as [Wd|[_ H]]; [exact Wd|].
        simpl in H. apply andb_true_iff in H as [Hd _].
        apply negb_true_iff in Hd. congruence.
Qed.

End Chunks.

Section WrapLoop.

Import textwrap.

Lemma len_app {A} (a b : list A) : len (a ++ b) = len a + len b.
Proof. unfold len. rewrite length_app. lia. Qed.

Lemma len_nonneg {A} (a : list A) : 0 <= len a.
Proof. unfold len. lia. Qed.

Lemma fill_line_spec w cs : forall cl n,
  exists taken r,
    fill_line w cl n cs = (cl ++ taken, n + len (concat taken), r)
    /\ cs = taken ++ r
    /\ (n <= w -> n + len (concat taken) <= w).
Proof.
  induction cs as [|c cs IH]; intros cl n.
  - exists [], []. simpl. rewrite List.app_nil_r, Z.add_0_r. auto.
  - cbn [fill_line]. destruct (n + len c <=? w) eqn:E.
    + destruct (IH (cl ++ [c]) (n + len c)) as (taken & r & F & C & B).
      exists (c :: taken), r. rewrite F. cbn [concat].
      rewrite len_app, <- List.app_assoc, Z.add_assoc. simpl.
      repeat split; [congruence|]. intros _. apply B. apply Z.leb_le, E.
    + exists [], (c :: cs). simpl. rewrite List.app_nil_r, Z.add_0_r. auto.
Qed.

(** One pass of the outer loop: some leading whitespace dropped, a
    run of chunks taken, that fits the width or is a single chunk. *)
Lemma wrap_line_spec width lines chunks :
  0 <= width ->
  exists dropped taken rest,
    wrap_line width lines chunks = (emit lines (drop_trailing taken), rest)
    /\ chunks = dropped ++ taken ++ rest
    /\ Forall (fun c => strip c = []) dropped
    /\ (len (concat taken) <= width \/ exists c, taken = [c]).
Proof.
  intro W. unfold wrap_line.
  assert (Ew : width - len (@nil codepoint) = width) by (unfold len; simpl; lia).
  rewrite Ew. clear Ew.
  set (chunks1 := match chunks with
                  | [] => chunks
                  | c :: rest =>
                      if is_nil (strip c) && negb (is_nil lines)
                      then rest else chunks
                  end).
  assert (D : exists dropped, chunks = dropped ++ chunks1
                              /\ Forall (fun c => strip c = []) dropped).
  { subst chunks1. destruct chunks as [|c rest]; [exists []; auto|].
    destruct (is_nil (strip c) && negb (is_nil lines)) eqn:E.
    - apply andb_true_iff in E as [E _]. apply is_nil_true in E.
      exists [c]. auto.
    - exists []. auto. }
  destruct D as (dropped & Hc & Hd).
  destruct (fill_line_spec width chunks1 [] 0) as (taken & r & F & C & B).
  rewrite F. cbn [app]. rewrite Z.add_0_l in *. specialize (B W).
  clearbody chunks1. subst chunks1 chunks.
  destruct r as [|c0 r'].
  - exists dropped, taken, []. auto.
  - destruct (len c0 >? width) eqn:G.
    + unfold handle_long_word. destruct taken as [|t taken'].
      * exists dropped, [c0], r'. cbn [app]. repeat split; eauto.
      * exists dropped, (t :: taken'), (c0 :: r'). auto.
    + exists dropped, taken, (c0 :: r'). auto.
Qed.

Lemma wrap_line_suffix width lines chunks :
  exists consumed, chunks = consumed ++ snd (wrap_line width lines chunks).
Proof.
  unfold wrap_line.
  set (chunks1 := match chunks with
                  | [] => chunks
                  | c :: rest =>
                      if is_nil (strip c) && negb (is_nil lines)
                      then rest else chunks
                  end).
  assert (D : exists dropped, chunks = dropped ++ chunks1).
  { subst chunks1. destruct chunks as [|c rest]; [exists []; auto|].
    destruct (is_nil (strip c) && negb (is_nil lines));
      [exists [c]|exists []]; reflexivity. }
  destruct D as (dropped & Hc).
  destruct (fill_line_spec (width - len (@nil codepoint)) chunks1 [] 0)
    as (taken & r & F & C & _).
  rewrite F. cbn [app]. clearbody chunks1. subst chunks1 chunks.
  destruct r as [|c0 r'].
  - exists (dropped ++ taken). simpl. rewrite <- List.app_assoc. reflexivity.
  - destruct (len c0 >? _).
    + unfold handle_long_word. destruct taken as [|t taken'].
      * exists (dropped ++ [c0]). simpl. rewrite <- List.app_assoc. reflexivity.
      * exists (dropped ++ t :: taken'). simpl.
        rewrite <- List.app_assoc. reflexivity.
    + exists (dropped ++ taken). simpl. rewrite <- List.app_assoc. reflexivity.
Qed.

(** The rule of the outer loop: what a pass preserves holds of the
    result. *)
Lemma wrap_loop_rule width (Inv : list pystr -> list pystr -> Prop) :
  (forall lines c chunks,
      Inv lines (c :: chunks) ->
      Inv (fst (wrap_line width lines (c :: chunks)))
          (snd (wrap_line width lines (c :: chunks)))) ->
  forall chunks lines,
    Inv lines chunks -> Inv (wrap_loop width lines chunks) [].
Proof.
  intros Step chunks lines. funelim (wrap_loop width lines chunks).
  - intro H. exact H.
  - intro HI. apply (H Inv Step). apply Step, HI.
Qed.

End WrapLoop.

Section WrapProperties.

Import textwrap.

Lemma wrap_unfold text width :
  1 <= width ->
  wrap text width = Ok (wrap_loop width [] (split_chunks text)).
Proof.
  intro W. unfold wrap, textwrap.wrap, wrap_chunks.
  replace (width <=? 0) with false by (symmetry; apply Z.leb_gt; lia).
  reflexivity.
Qed.

Lemma drop_trailing_cases taken :
  drop_trailing taken = taken
  \/ exists t, taken = drop_trailing taken ++ [t] /\ strip t = [].
Proof.
  unfold drop_trailing.
  destruct (negb (is_nil taken) && is_nil (strip (last taken []))) eqn:E;
    [|left; reflexivity].
  right. apply andb_true_iff in E as [N S]. apply is_nil_true in S.
  exists (last taken []). split; [|exact S].
  apply app_removelast_last. destruct taken; [discriminate|discriminate].
Qed.

Lemma len_concat_drop_trailing taken :
  len (concat (drop_trailing taken)) <= len (concat taken).
Proof.
  destruct (drop_trailing_cases taken) as [->|(t & E & _)]; [lia|].
  rewrite E at 2. rewrite concat_app, len_app.
  pose proof (len_nonneg (concat [t])). lia.
Qed.

Lemma words_drop_trailing taken :
  concat (map split_ws (drop_trailing taken)) = concat (map split_ws taken).
Proof.
  destruct (drop_trailing_cases taken) as [->|(t & E & S)]; [reflexivity|].
  rewrite E at 2. rewrite map_app, concat_app. simpl.
  rewrite (split_ws_all_space t) by (apply strip_nil, S).
  rewrite !List.app_nil_r. reflexivity.
Qed.

Lemma alternating_drop_trailing taken :
  alternating taken -> alternating (drop_trailing taken).
Proof.
  intro A. destruct (drop_trailing_cases taken) as [->|(t & E & _)]; [exact A|].
  rewrite E in A. apply alternating_app in A. apply A.
Qed.

Lemma words_emit lines cur :
  concat (map split_ws (emit lines cur))
  = concat (map split_ws lines) ++ split_ws (concat cur).
Proof.
  unfold emit. destruct cur as [|c cur]; simpl.
  - rewrite List.app_nil_r. reflexivity.
  - rewrite map_app, concat_app. simpl. rewrite List.app_nil_r. reflexivity.
Qed.

Lemma words_dropped dropped :
  Forall (fun c => strip c = []) dropped ->
  concat (map split_ws dropped) = [].
Proof.
  induction 1 as [|c dropped S _ IH]; [reflexivity|].
  simpl. rewrite IH, (split_ws_all_space c) by (apply strip_nil, S).
  reflexivity.
Qed.

(** The lines hold the words of the chunks, in order. *)
Lemma wrap_loop_words width chunks :
  0 <= width -> alternating chunks ->
  concat (map split_ws (wrap_loop width [] chunks))
  = concat (map split_ws chunks).
Proof.
  intros W A.
  pose (Inv := fun lines cs : list pystr =>
                 alternating cs
                 /\ concat (map split_ws lines) ++ concat (map split_ws cs)
                    = concat (map split_ws chunks)).
  assert (R : Inv (wrap_loop width [] chunks) []).
  { apply (wrap_loop_rule width Inv); [|split; [exact A|reflexivity]].
    intros lines c cs [Ac E].
    destruct (wrap_line_spec width lines (c :: cs) W)
      as (dropped & taken & rest & -> & C & D & _).
    cbn [fst snd]. rewrite C in Ac, E.
    apply alternating_app in Ac as [_ Ac].
    apply alternating_app in Ac as [At Ar].
    split; [exact Ar|].
    rewrite <- E, !map_app, !concat_app, (words_dropped dropped D).
    rewrite words_emit, split_ws_concat by (apply alternating_drop_trailing, At).
    rewrite words_drop_trailing, <- List.app_assoc. reflexivity. }
  destruct R as [_ R]. simpl in R. rewrite List.app_nil_r in R. exact R.
Qed.

(** Every line fits the width or is one word chunk. *)
Lemma wrap_loop_bound width chunks :
  0 <= width -> Forall chunk chunks ->
  Forall (fun l => len l <= width \/ (In l chunks /\ word_chunk l))
         (wrap_loop width [] chunks).
Proof.
  intros W A.
  pose (Inv := fun lines cs : list pystr =>
                 Forall (fun l => len l <= width \/ (In l chunks /\ word_chunk l))
                        lines
                 /\ Forall (fun c => In c chunks /\ chunk c) cs).
  assert (R : Inv (wrap_loop width [] chunks) []).
  { apply (wrap_loop_rule width Inv).
    - intros lines c cs [L P].
      destruct (wrap_line_spec width lines (c :: cs) W)
        as (dropped & taken & rest & -> & C & _ & B).
      cbn [fst snd]. rewrite C in P.
      apply Forall_app in P as [_ P]. apply Forall_app in P as [Pt Pr].
      split; [|exact Pr].
      unfold emit. destruct (negb (is_nil (drop_trailing taken))) eqn:N;
        [|exact L].
      apply Forall_app. split; [exact L|]. constructor; [|constructor].
      destruct B as [B|(t & ->)].
      + left. pose proof (len_concat_drop_trailing taken). lia.
      + inversion Pt as [|? ? [It Ct] _]; subst.
        unfold drop_trailing in *. cbn [is_nil negb andb last] in *.
        destruct (is_nil (strip t)) eqn:S; [discriminate|].
        right. simpl. rewrite List.app_nil_r. split; [exact It|].
        apply chunk_strip_nonempty; [exact Ct|].
        intro Z. rewrite Z in S. discriminate.
    - split; [constructor|].
      apply Forall_forall. intros c Hc. split; [exact Hc|].
      rewrite Forall_forall in A. apply A, Hc. }
  apply R.
Qed.

End WrapProperties.

(** C2, as the spec states it, fails: a word longer than the width is
    kept whole ([break_long_words] is off), so the line is longer than
    the width. *)
Lemma wrap_line_length_counterexample :
  wrap (py "abc") 1 = Ok [py "abc"]
  /\ ~ Forall (fun l => len l <= 1) [py "abc"].
Proof.
  split; [vm_compute; reflexivity|].
  intro H. inversion H as [|? ? L _]; subst. vm_compute in L. apply L. reflexivity.
Qed.

(** C2, amended.  For every string and every width of at least one,
    [wrap] returns lines each of which has length at most the width,
    or else is a single word of the text, a run without any of the
    whitespace the wrapper splits on, that is kept whole. *)
Theorem wrap_line_length_bound (text : pystr) (width : Z) :
  1 <= width ->
  exists lines,
    wrap text width = Ok lines
    /\ Forall (fun l => len l <= width \/ long_word text l) lines.
Proof.
  intro W. exists (textwrap.wrap_loop width [] (textwrap.split_chunks text)).
  split; [apply wrap_unfold, W|].
  eapply Forall_impl;
    [|apply wrap_loop_bound;
      [lia|apply alternating_Forall, split_alternating]].
  intros l [B|[I [_ Wd]]]; [left; exact B|right; split; assumption].
Qed.

Lemma wrap_line_length_bound_witness :
  exists lines,
    wrap (py "to be abcdefgh or") 5 = Ok lines
    /\ Forall (fun l => len l <= 5 \/ long_word (py "to be abcdefgh or") l) lines.
Proof.
  apply (wrap_line_length_bound (py "to be abcdefgh or") 5). lia.
Defined.

(** C3, as the spec states it, fails: joining the lines and collapsing
    whitespace gives the text with its whitespace collapsed, which is
    not the text when the text has a double space. *)
Lemma wrap_roundtrip_counterexample :
  wrap (py "a  b") 10 = Ok [py "a  b"]
  /\ collapse_ws (join [SPACE] [py "a  b"]) = py "a b"
  /\ py "a b" <> py "a  b".
Proof.
  split; [vm_compute; reflexivity|]. split; [vm_compute; reflexivity|].
  vm_compute. discriminate.
Qed.

(** C3, amended.  For every string and every width of at least one,
    [wrap] splits only at whitespace: the words of the lines, line by
    line, are the words of the text, none cut.  Joining the lines with
    single spaces and collapsing whitespace gives the text with its
    whitespace collapsed. *)
Theorem wrap_preserves_words (text : pystr) (width : Z) :
  1 <= width ->
  exists lines,
    wrap text width = Ok lines
    /\ concat (map split_ws lines) = split_ws text
    /\ collapse_ws (join [SPACE] lines) = collapse_ws text.
Proof.
  intro W. exists (textwrap.wrap_loop width [] (textwrap.split_chunks text)).
  split; [apply wrap_unfold, W|].
  assert (E : concat (map split_ws
                        (textwrap.wrap_loop width [] (textwrap.split_chunks text)))
              = split_ws text).
  { rewrite wrap_loop_words by (try lia; apply split_alternating).
    rewrite <- split_ws_concat by apply split_alternating.
    unfold textwrap.split_chunks. rewrite split_concat. apply split_ws_munge. }
  split; [exact E|].
  unfold collapse_ws. rewrite split_ws_join, E. reflexivity.
Qed.

Lemma wrap_preserves_words_witness :
  exists lines,
    wrap (py "  to be   abcdefgh or ") 5 = Ok lines
    /\ concat (map split_ws lines) = split_ws (py "  to be   abcdefgh or ")
    /\ collapse_ws (join [SPACE] lines) = collapse_ws (py "  to be   abcdefgh or ").
Proof.
  apply (wrap_preserves_words (py "  to be   abcdefgh or ") 5). lia.
Defined.

(** ** Serializer *)

Section Serializer.

Lemma encode_ascii_bytes (l : bytes) :
  forallb ascii_byte l = true -> encode_ascii (map Byte.to_N l) = Ok l.
Proof.
  unfold encode_ascii. induction l as [|b l IH]; [reflexivity|].
  cbn [forallb map encode]. intro H. apply andb_true_iff in H as [Hb Hl].
  unfold encode_char. unfold ascii_byte in Hb. rewrite Hb, Byte.of_to_N.
  rewrite (IH Hl). reflexivity.
Qed.

Lemma digits_uint_are_digits d :
  forallb is_digit (bs (NilEmpty.string_of_uint d)) = true.
Proof.
  unfold bs. induction d; [reflexivity|..]; exact IHd.
Qed.

Lemma to_int_nonneg z :
  0 <= z -> exists d, Z.to_int z = Decimal.Pos d /\ d <> Decimal.Nil.
Proof.
  intro H. destruct z as [|p|p]; [| |lia].
  - exists (Decimal.D0 Decimal.Nil). split; [reflexivity|discriminate].
  - exists (Pos.to_uint p). split; [reflexivity|].
    apply DecimalPos.Unsigned.to_uint_nonnil.
Qed.

Lemma digits_are_digits z : 0 <= z -> forallb is_digit (digits z) = true.
Proof.
  intro H. destruct (to_int_nonneg z H) as (d & E & N).
  unfold digits. rewrite E. unfold NilZero.string_of_int, NilZero.string_of_uint.
  destruct d; [congruence|..]; apply digits_uint_are_digits.
Qed.

Lemma is_digit_ascii b : is_digit b = true -> ascii_byte b = true.
Proof.
  unfold is_digit, ascii_byte. intro H. apply andb_true_iff in H as [_ H].
  apply N.leb_le in H. apply N.ltb_lt. lia.
Qed.

Lemma digits_ascii z : 0 <= z -> forallb ascii_byte (digits z) = true.
Proof.
  intro H. pose proof (digits_are_digits z H) as D.
  rewrite forallb_forall in *. intros b Hb. apply is_digit_ascii, D, Hb.
Qed.

Lemma str_int_digits z : str_int z = map Byte.to_N (digits z).
Proof. reflexivity. Qed.

Lemma parse_int_digits z : parse_int (digits z) = Some z.
Proof.
  unfold parse_int, digits, bs. rewrite string_of_list_byte_of_string.
  rewrite NilZero.isi.
  - simpl. rewrite DecimalZ.of_to. reflexivity.
  - destruct z; simpl; try discriminate.
    intro E. injection E as E. revert E. apply DecimalPos.Unsigned.to_uint_nonnil.
  - destruct z; simpl; try discriminate.
    intro E. injection E as E. revert E. apply DecimalPos.Unsigned.to_uint_nonnil.
Qed.

Lemma take_digits_app d r :
  forallb is_digit d = true ->
  match r with [] => True | b :: _ => is_digit b = false end ->
  take_digits (d ++ r) = d.
Proof.
  intros D R. induction d as [|b d IH]; simpl.
  - destruct r as [|b r]; [reflexivity|]. simpl. rewrite R. reflexivity.
  - simpl in D. apply andb_true_iff in D as [Db Dd]. rewrite Db, (IH Dd).
    reflexivity.
Qed.

Lemma after_skip marker d r :
  marker <> [] ->
  forallb (fun b => negb (Byte.eqb (hd x00 marker) b)) d = true ->
  after marker (d ++ r) = after marker r.
Proof.
  intros N H. destruct marker as [|m0 m]; [congruence|]. clear N.
  induction d as [|b d IH]; [reflexivity|].
  cbn [forallb hd] in H. apply andb_true_iff in H as [Hb Hd].
  apply negb_true_iff in Hb.
  cbn [app after starts_with]. rewrite Hb. cbn [andb]. exact (IH Hd).
Qed.

Lemma byte_eqb_refl b : Byte.eqb b b = true.
Proof. destruct (Byte.eqb b b) eqn:E; [reflexivity|]. apply Byte.eqb_false in E. congruence. Qed.

Lemma starts_with_app p r : starts_with Byte.eqb p (p ++ r) = true.
Proof.
  induction p as [|b p IH]; [reflexivity|].
  simpl. rewrite byte_eqb_refl, IH. reflexivity.
Qed.

Lemma strip_suffix_app a suffix : strip_suffix suffix (a ++ suffix) = Some a.
Proof.
  unfold strip_suffix. rewrite List.rev_app_distr, starts_with_app.
  rewrite <- length_rev, skipn_app, Nat.sub_diag, skipn_all. simpl.
  rewrite List.rev_involutive. reflexivity.
Qed.

Lemma sum_len_join output : sum_len output = len (join [] output).
Proof.
  unfold sum_len.
  assert (G : forall acc, fold_left (fun a part => a + len part) output acc
                          = acc + len (join [] output)).
  { induction output as [|p output IH]; intro acc; [simpl; unfold len; simpl; lia|].
    cbn [fold_left]. rewrite IH.
    destruct output as [|q output].
    - simpl. unfold len at 2. simpl. lia.
    - change (join [] (p :: q :: output)) with (p ++ [] ++ join [] (q :: output)).
      rewrite !len_app. unfold len at 4. simpl. lia. }
  rewrite G. lia.
Qed.

Lemma skipn_len_app (a b : bytes) : skipn (Z.to_nat (len a)) (a ++ b) = b.
Proof.
  unfold len. rewrite Nat2Z.id, skipn_app, Nat.sub_diag, skipn_all. reflexivity.
Qed.

Lemma after_here marker r :
  marker <> [] -> after marker (marker ++ r) = Some r.
Proof.
  intro N. destruct marker as [|m0 m]; [congruence|].
  cbn [app after]. change (m0 :: m ++ r) with ((m0 :: m) ++ r).
  rewrite starts_with_app, skipn_app, Nat.sub_diag, skipn_all. reflexivity.
Qed.

Lemma digits_without c z :
  0 <= z -> is_digit c = false ->
  forallb (fun b => negb (Byte.eqb c b)) (digits z) = true.
Proof.
  intros Hz Hc. pose proof (digits_are_digits z Hz) as D.
  rewrite forallb_forall in *. intros b Hb. specialize (D b Hb).
  apply negb_true_iff. destruct (Byte.eqb c b) eqn:E; [|reflexivity].
  apply Byte.byte_dec_bl in E. subst. congruence.
Qed.

Lemma page_line :
  encode_ascii
    (py "<< /Type /Page /Parent 2 0 R /MediaBox [0 0 "
     ++ str_int PAGE_WIDTH ++ py " " ++ str_int PAGE_HEIGHT ++ py "] ")
  = Ok (bs "<< /Type /Page /Parent 2 0 R /MediaBox [0 0 612 792] ").
Proof. vm_compute. reflexivity. Qed.

Lemma length_line n :
  0 <= n ->
  encode_ascii (py "<< /Length " ++ str_int n ++ py " >>" ++ [LF]
                ++ py "stream" ++ [LF])
  = Ok (bs "<< /Length " ++ digits n ++ bs " >>" ++ NL ++ bs "stream" ++ NL).
Proof.
  intro H. rewrite str_int_digits.
  change [LF] with (map Byte.to_N NL). unfold py. rewrite <- !map_app.
  apply encode_ascii_bytes. rewrite !forallb_app, (digits_ascii n H). reflexivity.
Qed.

Lemma startxref_line n :
  0 <= n -> encode_ascii (str_int n ++ [LF]) = Ok (digits n ++ NL).
Proof.
  intro H. rewrite str_int_digits.
  change [LF] with (map Byte.to_N NL). rewrite <- map_app.
  apply encode_ascii_bytes. rewrite forallb_app, (digits_ascii n H). reflexivity.
Qed.

Lemma objects_eq cs :
  objects cs = Ok (fixed_objects ++ [contents_object cs]).
Proof.
  unfold objects. rewrite page_line, (length_line _ (len_nonneg cs)).
  reflexivity.
Qed.

Lemma xref_loop_eq (obj : bytes) :
  xref_loop (fixed_objects ++ [obj]) [] [pdf_header]
  = ([9; 58; 115; 270; 340; 415], pdf_header :: fixed_objects ++ [obj]).
Proof. reflexivity. Qed.

Lemma xref_entries_eq :
  xref_entries [9; 58; 115; 270; 340; 415]
    [bs "xref" ++ NL; bs "0 7" ++ NL; bs "0000000000 65535 f " ++ NL]
  = Ok xref_table.
Proof. vm_compute. reflexivity. Qed.

Lemma sum_len_nonneg output : 0 <= sum_len output.
Proof. rewrite sum_len_join. apply len_nonneg. Qed.

(** The serializer never raises, and its parts are these. *)
Lemma build_pdf_spec lines :
  exists cs trailer,
    content_stream lines = Ok cs
    /\ build_pdf lines
       = Ok {| pdf_content_stream := cs;
               pdf_objects := fixed_objects ++ [contents_object cs];
               pdf_xref_positions := [9; 58; 115; 270; 340; 415];
               pdf_output := pdf_header :: fixed_objects ++ [contents_object cs];
               pdf_xref_start :=
                 len (join [] (pdf_header :: fixed_objects ++ [contents_object cs]));
               pdf_xref := xref_table;
               pdf_trailer := trailer;
               pdf_bytes :=
                 join [] (pdf_header :: fixed_objects ++ [contents_object cs])
                 ++ join [] xref_table ++ trailer |}.
Proof.
  pose proof (encode_replace_total 256 (join [] (content lines))) as E.
  fold (encode_latin1 Replace (join [] (content lines))) in E.
  fold (content_stream lines) in E.
  eexists. eexists. split; [exact E|].
  unfold build_pdf. rewrite E. cbn [bind]. rewrite objects_eq. cbn [bind].
  fold pdf_header. rewrite xref_loop_eq.
  change (len (fixed_objects ++ [contents_object _]) + 1) with 7.
  change (encode_ascii (py "0 " ++ str_int 7 ++ [LF])) with (Ok (bs "0 7" ++ NL)).
  cbn [bind].
  match goal with
  | |- context [xref_entries ?a ?b] =>
      replace (xref_entries a b) with (Ok xref_table)
        by (symmetry; exact xref_entries_eq)
  end.
  cbn [bind].
  change (encode_ascii (py "<< /Size " ++ str_int 7 ++ py " /Root 1 0 R >>" ++ [LF]))
    with (Ok (bs "<< /Size 7 /Root 1 0 R >>" ++ NL)).
  cbn [bind]. rewrite startxref_line by apply sum_len_nonneg. cbn [bind].
  rewrite sum_len_join. reflexivity.
Qed.

Lemma contents_object_payload cs :
  stream_payload (contents_object cs) = Some cs.
Proof.
  unfold stream_payload, contents_object. rewrite <- !List.app_assoc.
  rewrite (after_skip _ (bs "6 0 obj")) by (discriminate || reflexivity).
  rewrite (after_skip _ NL) by (discriminate || reflexivity).
  rewrite (after_skip _ (bs "<< /Length ")) by (discriminate || reflexivity).
  rewrite (after_skip _ (digits (len cs)))
    by (discriminate || (apply digits_without; [apply len_nonneg|reflexivity])).
  rewrite (after_skip _ (bs " >>")) by (discriminate || reflexivity).
  rewrite (after_skip _ NL) by (discriminate || reflexivity).
  rewrite (List.app_assoc (bs "stream") NL).
  rewrite after_here by discriminate.
  apply strip_suffix_app.
Qed.

Lemma contents_object_length cs :
  read_length (contents_object cs) = Some (len cs).
Proof.
  unfold read_length, contents_object. rewrite <- !List.app_assoc.
  change (bs "<< /Length ") with (bs "<< " ++ bs "/Length ").
  rewrite <- !List.app_assoc.
  rewrite (after_skip _ (bs "6 0 obj")) by (discriminate || reflexivity).
  rewrite (after_skip _ NL) by (discriminate || reflexivity).
  rewrite (after_skip _ (bs "<< ")) by (discriminate || reflexivity).
  rewrite after_here by discriminate.
  rewrite take_digits_app;
    [apply parse_int_digits|apply digits_are_digits, len_nonneg|reflexivity].
Qed.

End Serializer.

(** C6.  The content object, the sixth, is written with the exact
    length of its stream: the integer a reader finds after [/Length]
    is the number of bytes between the [stream] line and [endstream],
    and those bytes are the content stream. *)
Theorem stream_length_exact (lines : list placement) :
  exists p obj,
    build_pdf lines = Ok p
    /\ content_stream lines = Ok (pdf_content_stream p)
    /\ nth_error (pdf_objects p) 5 = Some obj
    /\ stream_payload obj = Some (pdf_content_stream p)
    /\ read_length obj = Some (len (pdf_content_stream p)).
Proof.
  destruct (build_pdf_spec lines) as (cs & trailer & Ec & Ep).
  eexists. exists (contents_object cs). split; [exact Ep|].
  cbn [pdf_content_stream pdf_objects].
  split; [exact Ec|]. split; [reflexivity|]. split.
  - apply contents_object_payload.
  - apply contents_object_length.
Qed.

(** C5.  The file has six objects, numbered from one without a gap:
    the [n]-th object starts with ["<n> 0 obj"].  The cross-reference
    table sits at the offset the serializer recorded, and for every
    [n] from 1 to 6 the offset listed in its [n]-th entry is the
    recorded position of the [n]-th object, and the bytes of the file
    from that offset on are that object. *)
Theorem xref_offsets_point_at_objects (lines : list placement) :
  exists p,
    build_pdf lines = Ok p
    /\ length (pdf_objects p) = 6%nat
    /\ starts_with Byte.eqb (bs "xref" ++ NL ++ bs "0 7" ++ NL)
         (skipn (Z.to_nat (pdf_xref_start p)) (pdf_bytes p)) = true
    /\ Forall (fun n =>
         exists obj pos,
           nth_error (pdf_objects p) (n - 1) = Some obj
           /\ starts_with Byte.eqb (object_header n) obj = true
           /\ xref_offset (pdf_bytes p) (pdf_xref_start p) n = Some pos
           /\ nth_error (pdf_xref_positions p) (n - 1) = Some pos
           /\ starts_with Byte.eqb obj (skipn (Z.to_nat pos) (pdf_bytes p)) = true)
       (seq 1 6).
Proof.
  destruct (build_pdf_spec lines) as (cs & trailer & _ & Ep).
  eexists. split; [exact Ep|].
  cbn [pdf_objects pdf_xref_start pdf_bytes pdf_xref_positions].
  split; [reflexivity|].
  assert (X : forall n,
    xref_offset
      (join [] (pdf_header :: fixed_objects ++ [contents_object cs])
       ++ join [] xref_table ++ trailer)
      (len (join [] (pdf_header :: fixed_objects ++ [contents_object cs]))) n
    = parse_int (firstn 10 (firstn 20 (skipn (20 * n)
        (drop_line (drop_line (join [] xref_table ++ trailer))))))).
  { intro n. unfold xref_offset, xref_entry. rewrite skipn_len_app. reflexivity. }
  split; [rewrite skipn_len_app; reflexivity|].
  cbn [seq]. repeat apply Forall_cons; [..|apply Forall_nil].
  1-5: eexists; eexists; rewrite X;
       (split; [reflexivity|]); (split; [reflexivity|]);
       (split; [vm_compute; reflexivity|]); (split; [reflexivity|]);
       vm_compute; reflexivity.
  exists (contents_object cs), 415. rewrite X.
  split; [reflexivity|]. split; [reflexivity|].
  split; [vm_compute; reflexivity|]. split; [reflexivity|].
  change (skipn (Z.to_nat 415)
            (join [] (pdf_header :: fixed_objects ++ [contents_object cs])
             ++ join [] xref_table ++ trailer))
    with (contents_object cs ++ join [] xref_table ++ trailer).
  apply starts_with_app.
Qed.

(** * Further properties *)

(** ** Wrapping: the lines *)

Section WrapLines.

Import textwrap.

Lemma wrap_inversion text width lines :
  wrap text width = Ok lines ->
  1 <= width /\ lines = wrap_loop width [] (split_chunks text).
Proof.
  unfold wrap, textwrap.wrap, wrap_chunks.
  destruct (width <=? 0) eqn:E; [discriminate|].
  apply Z.leb_gt in E. intro H. inversion H. split; [lia|reflexivity].
Qed.

Lemma Forall_drop_trailing (Q : pystr -> Prop) taken :
  Forall Q taken -> Forall Q (drop_trailing taken).
Proof.
  intro H. destruct (drop_trailing_cases taken) as [->|(t & E & _)]; [exact H|].
  rewrite E in H. apply Forall_app in H. apply H.
Qed.

(** Every line is the concatenation of a non-empty run of chunks. *)
Lemma wrap_loop_lines_from_chunks width chunks (Q : pystr -> Prop) :
  0 <= width -> Forall Q chunks ->
  Forall (fun l => exists cur, cur <> [] /\ Forall Q cur /\ l = concat cur)
         (wrap_loop width [] chunks).
Proof.
  intros W A.
  pose (Inv := fun lines cs : list pystr =>
                 Forall (fun l => exists cur,
                             cur <> [] /\ Forall Q cur /\ l = concat cur) lines
                 /\ Forall Q cs).
  assert (R : Inv (wrap_loop width [] chunks) []).
  { apply (wrap_loop_rule width Inv).
    - intros lines c cs [L P].
      destruct (wrap_line_spec width lines (c :: cs) W)
        as (dropped & taken & rest & -> & C & _ & _).
      cbn [fst snd]. rewrite C in P.
      apply Forall_app in P as [_ P]. apply Forall_app in P as [Pt Pr].
      split; [|exact Pr].
      unfold emit. destruct (drop_trailing taken) as [|c0 cur] eqn:D;
        cbn [is_nil negb]; [exact L|].
      apply Forall_app. split; [exact L|]. constructor; [|constructor].
      exists (c0 :: cur). split; [discriminate|]. split; [|reflexivity].
      rewrite <- D. apply Forall_drop_trailing, Pt.
    - split; [constructor|exact A]. }
  apply R.
Qed.

Lemma chunk_nonempty c : chunk c -> c <> [].
Proof. intros [[N _]|[N _]]; exact N. Qed.

Lemma translate_whitespace_only_space s :
  Forall (fun c => c = SPACE \/ in_whitespace c = false)
         (translate_whitespace s).
Proof.
  unfold translate_whitespace. apply Forall_map, Forall_forall. intros c _.
  destruct (in_whitespace c) eqn:E; [left; reflexivity|right; exact E].
Qed.

Lemma wrap_loop_single width c :
  wrap_loop width [] [c] = if is_nil (strip c) then [] else [c].
Proof.
  rewrite wrap_loop_equation_2.
  assert (E : wrap_line width [] [c]
              = (if is_nil (strip c) then [] else [c], [])).
  { unfold wrap_line. cbn [is_nil negb]. rewrite andb_false_r.
    cbn [fill_line]. destruct (0 + len c <=? width - len (@nil codepoint)) eqn:F.
    - cbn [fill_line app last removelast is_nil negb andb].
      destruct (is_nil (strip c)); cbn [is_nil negb app concat];
        [reflexivity|rewrite List.app_nil_r; reflexivity].
    - apply Z.leb_gt in F.
      replace (len c >? width - len (@nil codepoint)) with true
        by (symmetry; apply Z.gtb_lt; lia).
      cbn [handle_long_word app last removelast is_nil negb andb].
      destruct (is_nil (strip c)); cbn [is_nil negb app concat];
        [reflexivity|rewrite List.app_nil_r; reflexivity]. }
  rewrite E. cbn [fst snd]. apply wrap_loop_equation_1.
Qed.

(** A run of one kind is one chunk. *)
Lemma split_uniform b s :
  s <> [] -> Forall (fun c => in_whitespace c = b) s -> split s = [s].
Proof.
  induction s as [|c s IH]; [congruence|]. intros _ H.
  inversion H as [|? ? Hc Hs]; subst. cbn [split].
  destruct s as [|d w]; [reflexivity|].
  rewrite IH by (discriminate || exact Hs).
  inversion Hs as [|? ? Hd _]; subst. rewrite Hd, eqb_reflx. reflexivity.
Qed.

Lemma expandtabs_from_no_tab tabsize s : forall line_pos,
  Forall (fun c => c <> 9%N) s -> expandtabs_from tabsize line_pos s = s.
Proof.
  induction s as [|c s IH]; intros line_pos H; [reflexivity|].
  inversion H as [|? ? Hc Hs]; subst. cbn [expandtabs_from].
  replace (c =? 9)%N with false by (symmetry; apply N.eqb_neq; exact Hc).
  rewrite IH by exact Hs. reflexivity.
Qed.

Lemma expandtabs_from_Forall (P : codepoint -> Prop) tabsize s :
  P SPACE -> Forall P s ->
  forall line_pos, Forall P (expandtabs_from tabsize line_pos s).
Proof.
  intros Psp H. induction H as [|c s Hc Hs IH]; intro line_pos; [constructor|].
  cbn [expandtabs_from]. destruct (c =? 9)%N.
  - destruct (0 <? tabsize)%N; [|apply IH].
    apply Forall_app. split; [|apply IH].
    apply Forall_forall. intros a Ha. apply repeat_spec in Ha. subst. exact Psp.
  - constructor; [exact Hc|apply IH].
Qed.

Lemma translate_whitespace_id s :
  Forall (fun c => in_whitespace c = false) s -> translate_whitespace s = s.
Proof.
  unfold translate_whitespace. induction 1 as [|c s Hc _ IH]; [reflexivity|].
  cbn [map]. rewrite Hc, IH. reflexivity.
Qed.

Lemma not_isspace_not_whitespace c :
  isspace c = false -> in_whitespace c = false.
Proof.
  intro H. destruct (in_whitespace c) eqn:E; [|reflexivity].
  apply in_whitespace_isspace in E. congruence.
Qed.

End WrapLines.

Lemma wrap_blank (text : pystr) (width : Z) :
  1 <= width ->
  forallb textwrap.in_whitespace text = true ->
  wrap text width = Ok [].
Proof.
  intros W B. rewrite wrap_unfold by exact W. f_equal.
  assert (M : Forall (fun c => textwrap.in_whitespace c = true)
                     (textwrap.munge_whitespace text)).
  { unfold textwrap.munge_whitespace, textwrap.translate_whitespace.
    apply Forall_map. eapply Forall_impl;
      [|apply (expandtabs_from_Forall
                 (fun c => textwrap.in_whitespace c = true));
        [reflexivity|apply Forall_forall; rewrite forallb_forall in B; exact B]].
    intros c Hc. cbv beta in Hc. rewrite Hc. reflexivity. }
  unfold textwrap.split_chunks.
  destruct (textwrap.munge_whitespace text) as [|c m] eqn:E.
  - cbn [textwrap.split]. apply textwrap.wrap_loop_equation_1.
  - rewrite (split_uniform true) by (discriminate || exact M).
    rewrite wrap_loop_single.
    replace (is_nil (strip (c :: m))) with true; [reflexivity|].
    symmetry. apply is_nil_true, strip_nil.
    unfold all_space. apply forallb_forall. intros a Ha.
    rewrite Forall_forall in M. apply in_whitespace_isspace, M, Ha.
Qed.

(** X1.  [wrap] never returns an empty line: whatever the text and the
    width, every line it produces holds at least one code point. *)
Theorem wrap_never_yields_empty_line (text : pystr) (width : Z)
    (lines : list pystr) :
  wrap text width = Ok lines -> Forall (fun l => l <> []) lines.
Proof.
  intro H. apply wrap_inversion in H as [W ->].
  eapply Forall_impl;
    [|apply (wrap_loop_lines_from_chunks width _ (fun c => c <> []));
      [lia|]].
  - intros l (cur & N & Q & ->). destruct cur as [|c cur]; [congruence|].
    inversion Q as [|? ? Hc _]; subst. cbn [concat].
    destruct c; [congruence|discriminate].
  - eapply Forall_impl; [|apply alternating_Forall, split_alternating].
    apply chunk_nonempty.
Qed.

Lemma wrap_never_yields_empty_line_witness :
  Forall (fun l => l <> []) [py "  a"; py "b"].
Proof.
  apply (wrap_never_yields_empty_line (py "  a      b  ") 3).
  vm_compute. reflexivity.
Defined.

(** X2.  The lines [wrap] returns hold no tab, newline, vertical tab,
    form feed or carriage return: of the whitespace the wrapper splits
    on, only the space can occur in a line. *)
Theorem wrap_lines_hold_only_spaces (text : pystr) (width : Z)
    (lines : list pystr) :
  wrap text width = Ok lines ->
  Forall (Forall (fun c => c = SPACE \/ textwrap.in_whitespace c = false)) lines.
Proof.
  intro H. apply wrap_inversion in H as [W ->].
  eapply Forall_impl;
    [|apply (wrap_loop_lines_from_chunks width _
               (Forall (fun c => c = SPACE \/ textwrap.in_whitespace c = false)));
      [lia|]].
  - intros l (cur & _ & Q & ->). apply Forall_concat, Q.
  - apply Forall_concat. unfold textwrap.split_chunks. rewrite split_concat.
    apply translate_whitespace_only_space.
Qed.

Lemma wrap_lines_hold_only_spaces_witness :
  Forall (Forall (fun c => c = SPACE \/ textwrap.in_whitespace c = false))
         [py "a"; py "b c"].
Proof.
  apply (wrap_lines_hold_only_spaces [97; 9; 98; 10; 99]%N 6).
  vm_compute. reflexivity.
Defined.

(** X3.  A non-empty string without any whitespace is one word: [wrap]
    returns it as its only line, unchanged, whatever the width. *)
Theorem wrap_keeps_single_word (text : pystr) (width : Z) :
  1 <= width -> text <> [] ->
  forallb (fun c => negb (isspace c)) text = true ->
  wrap text width = Ok [text].
Proof.
  intros W N S. rewrite wrap_unfold by exact W. f_equal.
  assert (F : Forall (fun c => isspace c = false) text).
  { apply Forall_forall. intros c Hc. rewrite forallb_forall in S.
    apply negb_true_iff, S, Hc. }
  assert (M : textwrap.munge_whitespace text = text).
  { unfold textwrap.munge_whitespace, textwrap.expandtabs.
    rewrite expandtabs_from_no_tab.
    - apply translate_whitespace_id. eapply Forall_impl; [|exact F].
      apply not_isspace_not_whitespace.
    - eapply Forall_impl; [|exact F]. intros c Hc ->. discriminate. }
  unfold textwrap.split_chunks. rewrite M.
  rewrite (split_uniform false) by
    first [exact N
          |eapply Forall_impl; [apply not_isspace_not_whitespace|exact F]].
  rewrite wrap_loop_single.
  destruct (is_nil (strip text)) eqn:E; [|reflexivity].
  apply is_nil_true, strip_nil in E. destruct text as [|c t]; [congruence|].
  inversion F as [|? ? Hc _]; subst. simpl in E. rewrite Hc in E. discriminate.
Qed.

Lemma wrap_keeps_single_word_witness :
  wrap (py "client/src/workers/timerWorker.ts") 5
  = Ok [py "client/src/workers/timerWorker.ts"].
Proof.
  apply (wrap_keeps_single_word (py "client/src/workers/timerWorker.ts") 5).
  - lia.
  - discriminate.
  - reflexivity.
Defined.

(** X4.  A text made only of the whitespace the wrapper splits on
    (spaces, tabs, newlines, ...), the empty text included, wraps to no
    line at all. *)
Theorem wrap_of_blank_text (text : pystr) (width : Z) :
  1 <= width ->
  forallb textwrap.in_whitespace text = true ->
  wrap text width = Ok [].
Proof. apply wrap_blank. Qed.

Lemma wrap_of_blank_text_witness :
  wrap [32; 9; 10; 32]%N 2 = Ok [].
Proof.
  apply (wrap_of_blank_text [32; 9; 10; 32]%N 2); [lia|reflexivity].
Defined.

(** ** Layout in closed form *)

Section LayoutClosedForm.

Lemma len_cons {A} (a : A) l : len (a :: l) = 1 + len l.
Proof. unfold len. cbn [length]. lia. Qed.

Lemma stack_app a b current_y :
  stack (a ++ b) current_y
  = stack a current_y ++ stack b (current_y - LEADING * len a).
Proof.
  revert current_y. induction a as [|t a IH]; intro cy.
  - cbn [app stack]. f_equal. unfold len. simpl. lia.
  - cbn [app stack]. rewrite IH. do 3 f_equal. rewrite len_cons.
    unfold LEADING. lia.
Qed.

Lemma stack_length texts current_y : length (stack texts current_y) = length texts.
Proof.
  revert current_y. induction texts as [|t r IH]; intro cy; [reflexivity|].
  cbn [stack length]. rewrite IH. reflexivity.
Qed.

Lemma layout_body_stack body : forall lines current_y,
  layout_body body lines current_y
  = (lines ++ stack body current_y, current_y - LEADING * len body).
Proof.
  induction body as [|t body IH]; intros lines cy.
  - cbn [layout_body stack]. rewrite List.app_nil_r. f_equal.
    unfold len. simpl. lia.
  - cbn [layout_body stack]. rewrite IH. unfold add_text.
    rewrite <- List.app_assoc. cbn [app]. f_equal. rewrite len_cons.
    unfold LEADING. lia.
Qed.

Lemma layout_wrapped_stack wrapped : forall i lines current_y,
  layout_wrapped i wrapped lines current_y
  = (lines ++ stack (prefixed i wrapped) current_y,
     current_y - LEADING * len wrapped).
Proof.
  induction wrapped as [|t wrapped IH]; intros i lines cy.
  - cbn [layout_wrapped prefixed stack]. rewrite List.app_nil_r. f_equal.
    unfold len. simpl. lia.
  - cbn [layout_wrapped prefixed stack]. rewrite IH. unfold add_text.
    rewrite <- List.app_assoc. cbn [app]. f_equal. rewrite len_cons.
    unfold LEADING. lia.
Qed.

Lemma prefixed_length i wrapped : len (prefixed i wrapped) = len wrapped.
Proof.
  revert i. induction wrapped as [|t r IH]; intro i; [reflexivity|].
  cbn [prefixed]. rewrite !len_cons, IH. reflexivity.
Qed.

Lemma prefixed_succ i wrapped :
  prefixed (S i) wrapped = map (fun line => py "  " ++ line) wrapped.
Proof.
  revert i. induction wrapped as [|t r IH]; intro i; [reflexivity|].
  cbn [prefixed map Nat.eqb]. rewrite IH. reflexivity.
Qed.

Lemma wrap_indent_ok item :
  wrap item MAX_CHARS_BODY_INDENT
  = Ok (textwrap.wrap_loop MAX_CHARS_BODY_INDENT []
          (textwrap.split_chunks item)).
Proof. apply wrap_unfold. unfold MAX_CHARS_BODY_INDENT. lia. Qed.

Lemma bullet_texts_prefixed item :
  bullet_texts item
  = prefixed 0 (textwrap.wrap_loop MAX_CHARS_BODY_INDENT []
                  (textwrap.split_chunks item)).
Proof.
  unfold bullet_texts. rewrite wrap_indent_ok.
  destruct (textwrap.wrap_loop _ _ _) as [|first rest]; [reflexivity|].
  cbn [prefixed Nat.eqb]. rewrite prefixed_succ. reflexivity.
Qed.

Lemma layout_items_stack items : forall lines current_y,
  layout_items items lines current_y
  = Ok (lines ++ stack (flat_map bullet_texts items) current_y,
        current_y - LEADING * len (flat_map bullet_texts items)).
Proof.
  induction items as [|item items IH]; intros lines cy.
  - cbn [layout_items flat_map stack]. rewrite List.app_nil_r. do 2 f_equal.
    unfold len. simpl. lia.
  - cbn [layout_items flat_map]. rewrite wrap_indent_ok. cbn [bind].
    rewrite layout_wrapped_stack, IH, stack_app, <- List.app_assoc.
    rewrite bullet_texts_prefixed, len_app, prefixed_length.
    do 2 f_equal. unfold LEADING. lia.
Qed.

Lemma layout_section_closed s t lines current_y :
  get_title s = Ok t ->
  layout_section s lines current_y
  = Ok (lines ++ heading t current_y :: stack (section_texts s) (current_y - 16),
        current_y - 20 - LEADING * len (section_texts s)).
Proof.
  intro T. unfold layout_section. rewrite T. cbn [bind].
  destruct s as [u|u body|u items]; [discriminate| |].
  - rewrite layout_body_stack. unfold add_text. rewrite <- List.app_assoc.
    cbn [app section_texts]. do 2 f_equal. lia.
  - rewrite layout_items_stack. cbn [bind]. unfold add_text.
    rewrite <- List.app_assoc. cbn [app section_texts]. do 2 f_equal. lia.
Qed.

Lemma titled_get_title s : titled s = true -> exists t, get_title s = Ok t.
Proof. destruct s; [discriminate|eexists; reflexivity..]. Qed.

Lemma stack_styled texts current_y : Forall styled (stack texts current_y).
Proof.
  revert current_y. induction texts as [|t r IH]; intro cy; [constructor|].
  cbn [stack]. constructor; [|apply IH].
  split; [reflexivity|right; split; reflexivity].
Qed.

Lemma stack_above texts current_y :
  Forall (fun p => current_y - LEADING * len texts < y p) (stack texts current_y).
Proof.
  revert current_y. induction texts as [|t r IH]; intro cy; [constructor|].
  cbn [stack]. rewrite len_cons. constructor.
  - cbn [y]. pose proof (len_nonneg r). unfold LEADING. lia.
  - eapply Forall_impl; [|apply IH]. intros p Hp. cbv beta in Hp.
    unfold LEADING in *. lia.
Qed.

End LayoutClosedForm.

(** X5.  What one pass of the section loop draws: below whatever was
    drawn before, the heading at the cursor in bold 12, then the body
    texts in Helvetica 11, the first 16 below the heading and each
    next one 14 lower; the cursor ends 20 plus 14 per body text below
    where it was.  For a bullets section the body texts are those of
    its items: the wrapped lines of each item, the first after a dash
    and the others after two spaces. *)
Theorem layout_section_draws (s : section) (t : pystr)
    (lines : list placement) (current_y : Z) :
  get_title s = Ok t ->
  layout_section s lines current_y
  = Ok (lines ++ heading t current_y :: stack (section_texts s) (current_y - 16),
        current_y - 20 - LEADING * len (section_texts s)).
Proof. apply layout_section_closed. Qed.

Lemma layout_section_draws_witness :
  layout_section (Bullets (py "B") [py "a" ++ repeat SPACE 86 ++ py "b"])
    [] 700
  = Ok ([] ++ heading (py "B") 700
           :: stack (section_texts
                       (Bullets (py "B") [py "a" ++ repeat SPACE 86 ++ py "b"]))
                    (700 - 16),
        700 - 20
        - LEADING * len (section_texts
                           (Bullets (py "B")
                              [py "a" ++ repeat SPACE 86 ++ py "b"]))).
Proof.
  apply (layout_section_draws
           (Bullets (py "B") [py "a" ++ repeat SPACE 86 ++ py "b"]) (py "B")).
  reflexivity.
Defined.



(** ** Layout: what the loop adds *)

Section LayoutAdds.

Lemma layout_section_added s lines current_y lines' current_y' :
  layout_section s lines current_y = Ok (lines', current_y') ->
  exists added,
    lines' = lines ++ added
    /\ added <> []
    /\ Forall styled added
    /\ current_y' = current_y - 6 - LEADING * len added
    /\ Forall (fun p => current_y' < y p) added.
Proof.
  intro E. destruct (get_title s) as [t|e] eqn:T.
  - rewrite (layout_section_closed s t lines current_y T) in E.
    assert (El : lines' = lines ++ heading t current_y
                            :: stack (section_texts s) (current_y - 16))
      by congruence.
    assert (Ec : current_y'
                 = current_y - 20 - LEADING * len (section_texts s))
      by congruence.
    clear E. subst lines' current_y'.
    exists (heading t current_y :: stack (section_texts s) (current_y - 16)).
    split; [reflexivity|]. split; [discriminate|]. split; [|split].
    + constructor; [|apply stack_styled].
      split; [reflexivity|left; split; [reflexivity|right; reflexivity]].
    + rewrite len_cons. unfold len. rewrite stack_length. unfold LEADING. lia.
    + pose proof (len_nonneg (section_texts s)) as N. constructor.
      * cbn [heading y]. unfold LEADING. lia.
      * eapply Forall_impl; [|apply stack_above]. intros p Hp. cbv beta in Hp.
        unfold LEADING in *. lia.
  - unfold layout_section in E. rewrite T in E. discriminate.
Qed.

Lemma layout_loop_all_added secs : forall lines current_y lines' current_y',
  layout_loop_all secs lines current_y = Ok (lines', current_y') ->
  exists added,
    lines' = lines ++ added
    /\ Forall styled added
    /\ current_y' = current_y - 6 * len secs - LEADING * len added
    /\ Forall (fun p => current_y' < y p) added
    /\ current_y' <= current_y.
Proof.
  induction secs as [|s secs IH]; intros lines cy lines' cy' E;
    cbn [layout_loop_all] in E.
  - inversion E; subst. exists []. rewrite List.app_nil_r.
    repeat split; try constructor. unfold len. simpl. lia. lia.
  - destruct (layout_section s lines cy) as [[l1 c1]|e] eqn:ES; cbn [bind] in E;
      [|discriminate].
    destruct (layout_section_added _ _ _ _ _ ES) as (a1 & -> & N1 & S1 & C1 & A1).
    destruct (IH _ _ _ _ E) as (a2 & -> & S2 & C2 & A2 & M2).
    pose proof (len_nonneg a1). pose proof (len_nonneg secs).
    exists (a1 ++ a2). rewrite List.app_assoc. split; [reflexivity|].
    split; [apply Forall_app; split; assumption|]. split; [|split].
    + rewrite len_cons, len_app. unfold LEADING in *. lia.
    + apply Forall_app. split; [|exact A2].
      eapply Forall_impl; [|exact A1]. intros p Hp. cbv beta in Hp. lia.
    + unfold LEADING in *. lia.
Qed.

Lemma layout_loop_all_total secs : forall lines current_y,
  forallb titled secs = true ->
  exists r, layout_loop_all secs lines current_y = Ok r.
Proof.
  induction secs as [|s secs IH]; intros lines cy H; cbn [layout_loop_all].
  - eexists. reflexivity.
  - cbn [forallb] in H. apply andb_true_iff in H as [Hs Hr].
    destruct (titled_get_title s Hs) as [t T].
    rewrite (layout_section_closed s t lines cy T). cbn [bind]. apply IH, Hr.
Qed.

Lemma layout_loop_total secs : forall lines current_y,
  forallb titled secs = true ->
  exists r, layout_loop secs lines current_y = Ok r.
Proof.
  induction secs as [|s secs IH]; intros lines cy H; cbn [layout_loop].
  - eexists. reflexivity.
  - cbn [forallb] in H. apply andb_true_iff in H as [Hs Hr].
    destruct (titled_get_title s Hs) as [t T].
    rewrite (layout_section_closed s t lines cy T). cbn [bind].
    destruct (_ <? MARGIN_BOTTOM); [eexists; reflexivity|apply IH, Hr].
Qed.

(** When the cursor never ends below the margin, the check changes
    nothing. *)
Lemma layout_loop_fits secs : forall lines current_y lines' current_y',
  layout_loop_all secs lines current_y = Ok (lines', current_y') ->
  MARGIN_BOTTOM <= current_y' ->
  layout_loop secs lines current_y = Ok (lines', current_y').
Proof.
  induction secs as [|s secs IH]; intros lines cy lines' cy' E F;
    cbn [layout_loop_all] in E; cbn [layout_loop]; [exact E|].
  destruct (layout_section s lines cy) as [[l1 c1]|e] eqn:ES; cbn [bind] in *;
    [|discriminate].
  destruct (layout_loop_all_added _ _ _ _ _ E) as (_ & _ & _ & _ & _ & M).
  replace (c1 <? MARGIN_BOTTOM) with false by (symmetry; apply Z.ltb_ge; lia).
  apply IH; assumption.
Qed.

Lemma layout_state_title sections lines current_y :
  layout_state sections = Ok (lines, current_y) ->
  exists t secs,
    sections = Title t :: secs
    /\ layout_loop secs
         [{| text := t; x := MARGIN_X; y := PAGE_HEIGHT - MARGIN_TOP;
             font := Helvetica_Bold; size := TITLE_SIZE |}]
         (PAGE_HEIGHT - MARGIN_TOP - 22)
       = Ok (lines, current_y).
Proof.
  unfold layout_state. destruct sections as [|s0 secs]; [discriminate|].
  destruct s0 as [t|t b|t i]; cbn [get_text bind]; try discriminate.
  intro E. exists t, secs. split; [reflexivity|exact E].
Qed.

Lemma layout_all_state_title sections lines current_y :
  layout_all_state sections = Ok (lines, current_y) ->
  exists t secs,
    sections = Title t :: secs
    /\ layout_loop_all secs
         [{| text := t; x := MARGIN_X; y := PAGE_HEIGHT - MARGIN_TOP;
             font := Helvetica_Bold; size := TITLE_SIZE |}]
         (PAGE_HEIGHT - MARGIN_TOP - 22)
       = Ok (lines, current_y).
Proof.
  unfold layout_all_state. destruct sections as [|s0 secs]; [discriminate|].
  destruct s0 as [t|t b|t i]; cbn [get_text bind]; try discriminate.
  intro E. exists t, secs. split; [reflexivity|exact E].
Qed.

End LayoutAdds.

(** X7.  Where the cursor ends: after the title and [k - 1] sections
    have been drawn as [n] lines in all, the cursor is at
    730 - 14 n - 6 (k - 1).  Every line costs one leading, every
    section six points more, the title eight. *)
Theorem layout_cursor_formula (sections : list section)
    (lines : list placement) (current_y : Z) :
  layout_state sections = Ok (lines, current_y) ->
  exists k,
    (1 <= k <= length sections)%nat
    /\ layout_all_state (firstn k sections) = Ok (lines, current_y)
    /\ current_y
       = PAGE_HEIGHT - MARGIN_TOP - 8 - LEADING * len lines
         - 6 * (Z.of_nat k - 1).
Proof.
  intro E. destruct (layout_state_title _ _ _ E) as (t & secs & -> & L).
  destruct (layout_loop_prefix _ _ _ _ _ L) as (k & Hk & Hall & _ & _).
  exists (S k). cbn [length firstn]. split; [lia|]. split; [exact Hall|].
  destruct (layout_loop_all_added _ _ _ _ _ Hall) as (added & -> & _ & C & _ & _).
  assert (Lk : len (firstn k secs) = Z.of_nat k)
    by (unfold len; rewrite length_firstn; lia).
  rewrite Lk in C. rewrite len_app, len_cons.
  change (len (@nil placement)) with 0.
  unfold LEADING, PAGE_HEIGHT, MARGIN_TOP in *. lia.
Qed.

Lemma layout_cursor_formula_witness :
  exists k,
    (1 <= k <= 2)%nat
    /\ layout_all_state
         (firstn k [Title (py "T"); Section (py "S") [py "a"; py "b"]])
       = Ok (add_text [] (py "T") 54 738 Helvetica_Bold 18
               ++ heading (py "S") 716 :: stack [py "a"; py "b"] 700, 668)
    /\ 668
       = PAGE_HEIGHT - MARGIN_TOP - 8
         - LEADING * len (add_text [] (py "T") 54 738 Helvetica_Bold 18
                            ++ heading (py "S") 716 :: stack [py "a"; py "b"] 700)
         - 6 * (Z.of_nat k - 1).
Proof.
  apply (layout_cursor_formula
           [Title (py "T"); Section (py "S") [py "a"; py "b"]]).
  reflexivity.
Defined.



(** X9.  The layout never fails on a well-formed list: a title entry
    followed by sections and bullet lists, whatever their texts.  (The
    wrap width of the bullets is a positive constant, so the wrapper
    does not raise.) *)
Theorem layout_accepts_well_formed (t : pystr) (secs : list section) :
  forallb titled secs = true ->
  exists lines, layout (Title t :: secs) = Ok lines.
Proof.
  intro H. unfold layout, layout_state. cbn [get_text bind].
  destruct (layout_loop_total secs
              (add_text [] t MARGIN_X (PAGE_HEIGHT - MARGIN_TOP)
                 Helvetica_Bold TITLE_SIZE)
              (PAGE_HEIGHT - MARGIN_TOP - 22) H) as [[l c] E].
  rewrite E. cbn [bind]. exists l. reflexivity.
Qed.

Lemma layout_accepts_well_formed_witness :
  exists lines,
    layout (Title (py "T") :: [Bullets (py "B") [py "x"; []]; Section (py "S") []])
    = Ok lines.
Proof.
  apply (layout_accepts_well_formed (py "T")
           [Bullets (py "B") [py "x"; []]; Section (py "S") []]).
  reflexivity.
Defined.

(** X10.  When everything fits, nothing is dropped: if laying out all
    the sections leaves the cursor at or above the bottom margin, the
    layout with the overflow check draws exactly those lines. *)
Theorem layout_keeps_all_when_fitting (sections : list section)
    (full : list placement) (current_y : Z) :
  layout_all_state sections = Ok (full, current_y) ->
  MARGIN_BOTTOM <= current_y ->
  layout sections = Ok full.
Proof.
  intros E F. destruct (layout_all_state_title _ _ _ E) as (t & secs & -> & L).
  unfold layout, layout_state. cbn [get_text bind].
  unfold add_text. cbn [app].
  rewrite (layout_loop_fits _ _ _ _ _ L F). reflexivity.
Qed.

Lemma layout_keeps_all_when_fitting_witness :
  layout [Title (py "T"); Section (py "S") [py "a"; py "b"]]
  = Ok (add_text [] (py "T") 54 738 Helvetica_Bold 18
          ++ heading (py "S") 716 :: stack [py "a"; py "b"] 700).
Proof.
  apply (layout_keeps_all_when_fitting
           [Title (py "T"); Section (py "S") [py "a"; py "b"]] _ 668).
  - reflexivity.
  - unfold MARGIN_BOTTOM. lia.
Defined.

(** X11.  Only the last section drawn can reach below the bottom
    margin: the lines are the layout of the first [k] entries, and for
    every shorter prefix of the entries, its lines come first among
    the lines drawn and all lie above the bottom margin. *)
Theorem only_last_section_crosses_margin (sections : list section)
    (lines : list placement) :
  layout sections = Ok lines ->
  exists k current_y,
    (1 <= k <= length sections)%nat
    /\ layout_all_state (firstn k sections) = Ok (lines, current_y)
    /\ forall j lj cj,
         (1 <= j < k)%nat ->
         layout_all_state (firstn j sections) = Ok (lj, cj) ->
         (exists rest, lines = lj ++ rest)
         /\ Forall (fun p => MARGIN_BOTTOM < y p) lj.
Proof.
  intro E. destruct (layout_inversion _ _ E) as [cy E'].
  destruct (layout_state_title _ _ _ E') as (t & secs & -> & L).
  destruct (layout_loop_prefix _ _ _ _ _ L) as (k & Hk & Hall & _ & Hfirst).
  exists (S k), cy. cbn [length firstn]. split; [lia|]. split; [exact Hall|].
  intros j lj cj Hj Ej. destruct j as [|j]; [lia|].
  cbn [firstn] in Ej. unfold layout_all_state in Ej. cbn [get_text bind] in Ej.
  unfold add_text in Ej. cbn [app] in Ej.
  assert (Hm : MARGIN_BOTTOM <= cj).
  { destruct j as [|j].
    - cbn [firstn layout_loop_all] in Ej. inversion Ej; subst.
      unfold MARGIN_BOTTOM, PAGE_HEIGHT, MARGIN_TOP. lia.
    - apply (Hfirst (S j) lj cj); [lia|exact Ej]. }
  split.
  - assert (F : firstn k secs = firstn j secs ++ skipn j (firstn k secs)).
    { rewrite <- (firstn_skipn j (firstn k secs)) at 1.
      rewrite firstn_firstn. replace (Nat.min j k) with j by lia. reflexivity. }
    rewrite F, layout_loop_all_app, Ej in Hall. cbn [bind] in Hall.
    destruct (layout_loop_all_added _ _ _ _ _ Hall) as (rest & -> & _).
    exists rest. reflexivity.
  - destruct (layout_loop_all_added _ _ _ _ _ Ej) as (added & -> & _ & _ & A & _).
    cbn [app]. constructor.
    + cbn [y]. unfold MARGIN_BOTTOM, PAGE_HEIGHT, MARGIN_TOP. lia.
    + eapply Forall_impl; [|exact A]. intros p Hp. cbv beta in Hp. lia.
Qed.

Lemma only_last_section_crosses_margin_witness :
  exists k current_y,
    (1 <= k <= 3)%nat
    /\ layout_all_state
         (firstn k (overflow_in_last_section ++ [Section (py "U") [py "m"]]))
       = Ok (fst (match layout_all_state overflow_in_last_section with
                  | Ok r => r
                  | Raise _ => ([], 0)
                  end), current_y)
    /\ forall j lj cj,
         (1 <= j < k)%nat ->
         layout_all_state
           (firstn j (overflow_in_last_section ++ [Section (py "U") [py "m"]]))
         = Ok (lj, cj) ->
         (exists rest,
             fst (match layout_all_state overflow_in_last_section with
                  | Ok r => r
                  | Raise _ => ([], 0)
                  end) = lj ++ rest)
         /\ Forall (fun p => MARGIN_BOTTOM < y p) lj.
Proof.
  apply (only_last_section_crosses_margin
           (overflow_in_last_section ++ [Section (py "U") [py "m"]])).
  vm_compute. reflexivity.
Defined.

(** ** Content stream *)

Section ContentStream.

Lemma read_literal_escaped t rest :
  read_literal (flat_map escape_codepoint t ++ RPAREN :: rest) = Some (t, rest).
Proof.
  induction t as [|c t IH].
  - cbn [flat_map app read_literal]. rewrite N.eqb_refl. reflexivity.
  - cbn [flat_map]. unfold escape_codepoint at 1. destruct (special c) eqn:S.
    + cbn [app read_literal].
      change (BACKSLASH =? RPAREN)%N with false. rewrite N.eqb_refl.
      cbv iota. rewrite IH. reflexivity.
    + cbn [app read_literal].
      assert ((c =? RPAREN)%N = false) as ->.
      { unfold special in S. apply orb_false_elim in S as [_ S]. exact S. }
      rewrite (special_not_backslash c S). rewrite IH. reflexivity.
Qed.

Lemma special_latin1 c :
  special (Byte.to_N (latin1_or_qmark c)) = special c.
Proof.
  rewrite latin1_or_qmark_spec. destruct (c <? 256)%N eqn:E; [reflexivity|].
  apply N.ltb_ge in E. unfold special, BACKSLASH, LPAREN, RPAREN.
  symmetry. change ((63 =? 92) || (63 =? 40) || (63 =? 41))%N with false.
  rewrite !orb_false_iff, !N.eqb_neq. repeat split; lia.
Qed.

Lemma join_nil_concat {A} (parts : list (list A)) : join [] parts = concat parts.
Proof.
  induction parts as [|p parts IH]; [reflexivity|].
  destruct parts as [|q parts].
  - simpl. rewrite List.app_nil_r. reflexivity.
  - change (join [] (p :: q :: parts)) with (p ++ [] ++ join [] (q :: parts)).
    rewrite IH. reflexivity.
Qed.

End ContentStream.

(** X12.  In every content item the text is drawn as a literal a
    reader recovers: after the font and position lines comes an open
    parenthesis, and reading from there up to the first parenthesis
    that is not escaped gives the placement's text exactly, whatever
    parentheses and backslashes it holds, and leaves [ Tj], [ET]. *)
Theorem content_item_literal_reads_back (line : placement) :
  exists rest,
    content_item line = content_item_head line ++ LPAREN :: rest
    /\ read_literal rest
       = Some (text line, py " Tj" ++ [LF] ++ py "ET" ++ [LF]).
Proof.
  exists (escape_pdf_text (text line)
          ++ RPAREN :: py " Tj" ++ [LF] ++ py "ET" ++ [LF]).
  split.
  - unfold content_item, content_item_head. rewrite <- !List.app_assoc.
    reflexivity.
  - rewrite escape_pdf_text_flat_map. apply read_literal_escaped.
Qed.

(** X13.  Replacing code points latin-1 cannot encode does not disturb
    the escaping: the replacement is a question mark, never a
    parenthesis or a backslash, so the encoded form of an escaped text
    is the escaped form of the encoded text, with no unescaped
    parenthesis or backslash. *)
Theorem encoding_keeps_escaping (t : pystr) :
  latin1_view (escape_pdf_text t) = escape_pdf_text (latin1_view t)
  /\ all_escaped (latin1_view (escape_pdf_text t)) = true
  /\ unescape_pdf_text (latin1_view (escape_pdf_text t)) = latin1_view t.
Proof.
  assert (E : latin1_view (escape_pdf_text t) = escape_pdf_text (latin1_view t)).
  { rewrite !escape_pdf_text_flat_map. unfold latin1_view.
    induction t as [|c t IH]; [reflexivity|].
    cbn [flat_map map]. rewrite map_app, IH. f_equal.
    unfold escape_codepoint. rewrite special_latin1.
    destruct (special c); reflexivity. }
  split; [exact E|]. rewrite E, escape_pdf_text_flat_map. split.
  - apply all_escaped_flat_map.
  - apply unescape_flat_map.
Qed.

(** X14.  The content stream is built placement by placement: the
    stream of two lists of placements one after the other is the two
    streams one after the other; and it has exactly one byte per code
    point of the text it encodes. *)
Theorem content_stream_concatenates (lines1 lines2 : list placement) :
  exists b1 b2,
    content_stream lines1 = Ok b1
    /\ content_stream lines2 = Ok b2
    /\ content_stream (lines1 ++ lines2) = Ok (b1 ++ b2)
    /\ length b1 = length (concat (map content_item lines1)).
Proof.
  exists (map latin1_or_qmark (join [] (content lines1))),
         (map latin1_or_qmark (join [] (content lines2))).
  split; [apply encode_replace_total|]. split; [apply encode_replace_total|].
  split.
  - unfold content_stream, encode_latin1. rewrite encode_replace_total.
    f_equal. unfold content. rewrite !join_nil_concat, map_app, concat_app.
    apply map_app.
  - rewrite length_map, join_nil_concat. reflexivity.
Qed.

(** ** Trailer *)

Section Trailer.

Lemma build_pdf_trailer lines :
  exists cs,
    content_stream lines = Ok cs
    /\ build_pdf lines
       = Ok {| pdf_content_stream := cs;
               pdf_objects := fixed_objects ++ [contents_object cs];
               pdf_xref_positions := [9; 58; 115; 270; 340; 415];
               pdf_output := pdf_header :: fixed_objects ++ [contents_object cs];
               pdf_xref_start :=
                 len (join [] (pdf_header :: fixed_objects ++ [contents_object cs]));
               pdf_xref := xref_table;
               pdf_trailer :=
                 trailer_of
                   (len (join [] (pdf_header
                                  :: fixed_objects ++ [contents_object cs])));
               pdf_bytes :=
                 join [] (pdf_header :: fixed_objects ++ [contents_object cs])
                 ++ join [] xref_table
                 ++ trailer_of
                      (len (join [] (pdf_header
                                     :: fixed_objects ++ [contents_object cs]))) |}.
Proof.
  pose proof (encode_replace_total 256 (join [] (content lines))) as E.
  fold (encode_latin1 Replace (join [] (content lines))) in E.
  fold (content_stream lines) in E.
  eexists. split; [exact E|].
  unfold build_pdf. rewrite E. cbn [bind]. rewrite objects_eq. cbn [bind].
  fold pdf_header. rewrite xref_loop_eq.
  change (len (fixed_objects ++ [contents_object _]) + 1) with 7.
  change (encode_ascii (py "0 " ++ str_int 7 ++ [LF])) with (Ok (bs "0 7" ++ NL)).
  cbn [bind].
  match goal with
  | |- context [xref_entries ?a ?b] =>
      replace (xref_entries a b) with (Ok xref_table)
        by (symmetry; exact xref_entries_eq)
  end.
  cbn [bind].
  change (encode_ascii (py "<< /Size " ++ str_int 7 ++ py " /Root 1 0 R >>" ++ [LF]))
    with (Ok (bs "<< /Size 7 /Root 1 0 R >>" ++ NL)).
  cbn [bind]. rewrite startxref_line by apply sum_len_nonneg. cbn [bind].
  rewrite sum_len_join. reflexivity.
Qed.

Lemma forallb_rev {A} (f : A -> bool) l : forallb f (rev l) = forallb f l.
Proof.
  induction l as [|a l IH]; [reflexivity|].
  simpl. rewrite forallb_app, IH. simpl. rewrite andb_true_r. apply andb_comm.
Qed.

Lemma take_digits_end_app front b d :
  is_digit b = false -> forallb is_digit d = true ->
  take_digits_end (front ++ b :: d) = d.
Proof.
  intros Hb Hd. unfold take_digits_end.
  rewrite List.rev_app_distr. cbn [rev]. rewrite <- !List.app_assoc. cbn [app].
  rewrite take_digits_app; [apply List.rev_involutive| |exact Hb].
  rewrite forallb_rev. exact Hd.
Qed.

Lemma read_startxref_trailer front z :
  0 <= z -> read_startxref (front ++ trailer_of z) = Some z.
Proof.
  intro Hz. unfold read_startxref, trailer_of.
  assert (E : front
              ++ bs "trailer" ++ NL
              ++ (bs "<< /Size 7 /Root 1 0 R >>" ++ NL)
              ++ (bs "startxref" ++ NL)
              ++ (digits z ++ NL)
              ++ (bs "%%EOF" ++ NL)
              = ((front ++ bs "trailer" ++ NL
                  ++ bs "<< /Size 7 /Root 1 0 R >>" ++ NL)
                 ++ (bs "startxref" ++ NL ++ digits z))
                ++ (NL ++ bs "%%EOF" ++ NL)).
  { rewrite <- !List.app_assoc. reflexivity. }
  rewrite E, strip_suffix_app.
  assert (D : take_digits_end
                ((front ++ bs "trailer" ++ NL
                  ++ bs "<< /Size 7 /Root 1 0 R >>" ++ NL)
                 ++ (bs "startxref" ++ NL ++ digits z))
              = digits z).
  { change (bs "startxref" ++ NL ++ digits z)
      with (bs "startxref" ++ x0a :: digits z).
    rewrite List.app_assoc.
    apply take_digits_end_app; [reflexivity|apply digits_are_digits, Hz]. }
  cbv zeta. rewrite D, strip_suffix_app. apply parse_int_digits.
Qed.

End Trailer.

(** X15.  The trailer points at the cross-reference table: the number
    a reader finds at the end of the file, on the line between
    [startxref] and [%%EOF], is the offset at which the table starts,
    and the file reads [xref] there; the trailer's [/Size] is the
    number of objects plus one, for the free-list head. *)
Theorem trailer_points_at_xref (lines : list placement) :
  exists p front,
    build_pdf lines = Ok p
    /\ pdf_bytes p = front ++ pdf_trailer p
    /\ read_startxref (pdf_bytes p) = Some (pdf_xref_start p)
    /\ starts_with Byte.eqb (bs "xref" ++ NL)
         (skipn (Z.to_nat (pdf_xref_start p)) (pdf_bytes p)) = true
    /\ starts_with Byte.eqb
         (bs "trailer" ++ NL ++ bs "<< /Size "
          ++ digits (len (pdf_objects p) + 1) ++ bs " /Root 1 0 R >>" ++ NL)
         (pdf_trailer p) = true.
Proof.
  destruct (build_pdf_trailer lines) as (cs & _ & Ep).
  eexists.
  exists (join [] (pdf_header :: fixed_objects ++ [contents_object cs])
          ++ join [] xref_table).
  split; [exact Ep|].
  cbn [pdf_bytes pdf_trailer pdf_xref_start pdf_objects].
  split; [rewrite <- List.app_assoc; reflexivity|]. split; [|split].
  - rewrite List.app_assoc. apply read_startxref_trailer, len_nonneg.
  - rewrite skipn_len_app. reflexivity.
  - reflexivity.
Qed.

(** ** Cross-reference entries *)

Section XrefEntries.

Lemma of_uint_acc_lower l : forall acc,
  Z.pos acc * 10 ^ Z.of_nat (Decimal.nb_digits l)
  <= Z.pos (Pos.of_uint_acc l acc).
Proof.
  induction l; intro acc; cbn [Pos.of_uint_acc Decimal.nb_digits];
    [simpl; lia|..];
    rewrite Nat2Z.inj_succ, Z.pow_succ_r by lia;
    match goal with
    | |- _ <= Z.pos (Pos.of_uint_acc _ ?a) => specialize (IHl a)
    end;
    pose proof (Z.pow_nonneg 10 (Z.of_nat (Decimal.nb_digits l)));
    nia.
Qed.

Lemma nzhead_lower d :
  Decimal.nzhead d = Decimal.Nil
  \/ 10 ^ (Z.of_nat (Decimal.nb_digits (Decimal.nzhead d)) - 1)
     <= Z.of_N (Pos.of_uint (Decimal.nzhead d)).
Proof.
  induction d; [left; reflexivity|exact IHd|..]; right;
    cbn [Decimal.nzhead Decimal.nb_digits Pos.of_uint];
    rewrite Nat2Z.inj_succ;
    match goal with
    | |- _ <= Z.of_N (N.pos (Pos.of_uint_acc ?l ?a)) =>
        pose proof (of_uint_acc_lower l a);
        pose proof (Z.pow_nonneg 10 (Z.of_nat (Decimal.nb_digits l)));
        replace (Z.succ (Z.of_nat (Decimal.nb_digits l)) - 1)
          with (Z.of_nat (Decimal.nb_digits l)) by lia
    end;
    nia.
Qed.

Lemma to_uint_lower p :
  10 ^ (Z.of_nat (Decimal.nb_digits (Pos.to_uint p)) - 1) <= Z.pos p.
Proof.
  pose proof (DecimalPos.Unsigned.to_of (Pos.to_uint p)) as U.
  rewrite DecimalPos.Unsigned.of_to in U. cbn [N.to_uint] in U.
  pose proof (DecimalPos.Unsigned.to_uint_nonzero p) as NZ.
  pose proof (DecimalPos.Unsigned.of_to p) as V.
  unfold Decimal.unorm in U.
  destruct (nzhead_lower (Pos.to_uint p)) as [N|B].
  - rewrite N in U. congruence.
  - assert (H : Decimal.nzhead (Pos.to_uint p) = Pos.to_uint p)
      by (destruct (Decimal.nzhead (Pos.to_uint p)); congruence).
    rewrite H, V in B. exact B.
Qed.

Lemma string_of_uint_length d :
  length (bs (NilEmpty.string_of_uint d)) = Decimal.nb_digits d.
Proof.
  unfold bs. induction d; [reflexivity|..]; exact (f_equal S IHd).
Qed.

(** An offset below ten thousand million has at most ten digits. *)
Lemma digits_length z :
  0 <= z < 10 ^ 10 -> (length (digits z) <= 10)%nat.
Proof.
  intros [Hz Hb]. destruct z as [|p|p]; [simpl; lia| |lia].
  unfold digits. cbn [Z.to_int NilZero.string_of_int].
  unfold NilZero.string_of_uint.
  pose proof (DecimalPos.Unsigned.to_uint_nonnil p) as NN.
  pose proof (to_uint_lower p) as L.
  assert (K : (Decimal.nb_digits (Pos.to_uint p) <= 10)%nat).
  { destruct (Nat.le_gt_cases (Decimal.nb_digits (Pos.to_uint p)) 10) as [K|K];
      [exact K|].
    assert (10 ^ 10 <= 10 ^ (Z.of_nat (Decimal.nb_digits (Pos.to_uint p)) - 1))
      by (apply Z.pow_le_mono_r; lia).
    lia. }
  destruct (Pos.to_uint p) eqn:E; [congruence|..];
    rewrite string_of_uint_length; exact K.
Qed.

Lemma format_010d_bytes z :
  0 <= z ->
  format_010d z
  = map Byte.to_N (repeat x30 (10 - length (digits z)) ++ digits z).
Proof.
  intro Hz. unfold format_010d.
  replace (z <? 0) with false by (symmetry; apply Z.ltb_ge; exact Hz).
  assert (D : py (NilZero.string_of_uint (N.to_uint (Z.abs_N z)))
              = map Byte.to_N (digits z))
    by (destruct z; [reflexivity|reflexivity|lia]).
  cbn [app length]. rewrite D, map_app, length_map, Nat.sub_0_r.
  f_equal. rewrite map_repeat. reflexivity.
Qed.

Lemma xref_entry_bytes z :
  0 <= z ->
  encode_ascii (format_010d z ++ py " 00000 n " ++ [LF])
  = Ok ((repeat x30 (10 - length (digits z)) ++ digits z)
        ++ bs " 00000 n " ++ NL).
Proof.
  intro Hz. rewrite (format_010d_bytes z Hz).
  change [LF] with (map Byte.to_N NL). unfold py. rewrite <- !map_app.
  apply encode_ascii_bytes. rewrite !forallb_app, (digits_ascii z Hz).
  cbn [forallb andb]. rewrite !andb_true_r. apply forallb_forall. intros b Hb.
  apply repeat_spec in Hb. subst. reflexivity.
Qed.

Lemma string_of_zeros n (s : string) :
  string_of_list_byte (repeat x30 n ++ bs s)
  = Nat.iter n (String "0"%char) s.
Proof.
  induction n as [|n IH]; [apply string_of_list_byte_of_string|].
  cbn [repeat app]. rewrite Nat.iter_succ, <- IH. reflexivity.
Qed.

Lemma uint_of_zeros n d :
  NilEmpty.uint_of_string (Nat.iter n (String "0"%char) (NilEmpty.string_of_uint d))
  = Some (Nat.iter n Decimal.D0 d).
Proof.
  induction n as [|n IH]; [apply NilEmpty.usu|].
  rewrite Nat.iter_succ. cbn [NilEmpty.uint_of_string]. rewrite IH. reflexivity.
Qed.

Lemma of_uint_zeros n d :
  Pos.of_uint (Nat.iter n Decimal.D0 d) = Pos.of_uint d.
Proof.
  induction n as [|n IH]; [reflexivity|].
  rewrite Nat.iter_succ. cbn [Pos.of_uint]. exact IH.
Qed.

(** Leading zeros do not change the number read. *)
Lemma parse_int_padded n z :
  0 <= z -> parse_int (repeat x30 n ++ digits z) = Some z.
Proof.
  intro Hz. destruct n as [|n]; [apply parse_int_digits|].
  destruct (to_int_nonneg z Hz) as (d & E & NN).
  assert (V : Z.of_N (Pos.of_uint d) = z).
  { pose proof (DecimalZ.of_to z) as T. rewrite E in T. exact T. }
  unfold parse_int, digits. rewrite E. cbn [NilZero.string_of_int].
  assert (S0 : NilZero.string_of_uint d = NilEmpty.string_of_uint d)
    by (destruct d; [congruence|reflexivity..]).
  rewrite S0, string_of_zeros.
  pose proof (uint_of_zeros (S n) d) as U.
  rewrite Nat.iter_succ in U |- *.
  cbn [NilZero.int_of_string]. change (Ascii.eqb "0" "-") with false. cbv iota.
  unfold NilZero.uint_of_string. rewrite U.
  cbn [option_map Z.of_int Z.of_uint].
  unfold Z.of_uint. rewrite of_uint_zeros, V. reflexivity.
Qed.

Lemma xref_entries_spec positions : forall xref,
  Forall (fun pos => 0 <= pos < 10 ^ 10) positions ->
  exists entries,
    xref_entries positions xref = Ok (xref ++ entries)
    /\ Forall2 (fun pos entry =>
                 length entry = 20%nat
                 /\ parse_int (firstn 10 entry) = Some pos
                 /\ skipn 10 entry = bs " 00000 n " ++ NL)
              positions entries.
Proof.
  induction positions as [|pos positions IH]; intros xref H.
  - exists []. rewrite List.app_nil_r. split; [reflexivity|constructor].
  - inversion H as [|? ? [Hz Hb] Hr]; subst.
    cbn [xref_entries]. rewrite (xref_entry_bytes pos Hz). cbn [bind].
    destruct (IH (xref ++ [(repeat x30 (10 - length (digits pos)) ++ digits pos)
                             ++ bs " 00000 n " ++ NL]) Hr) as (entries & E & F).
    exists (((repeat x30 (10 - length (digits pos)) ++ digits pos)
             ++ bs " 00000 n " ++ NL) :: entries).
    split; [etransitivity; [exact E|rewrite <- List.app_assoc; reflexivity]|].
    constructor; [|exact F].
    pose proof (digits_length pos (conj Hz Hb)) as L.
    assert (P : length (repeat x30 (10 - length (digits pos)) ++ digits pos)
                = 10%nat)
      by (rewrite length_app, repeat_length; lia).
    split; [|split].
    + rewrite length_app, P. reflexivity.
    + rewrite firstn_app, P, Nat.sub_diag, firstn_O, List.app_nil_r.
      rewrite firstn_all2 by lia. apply parse_int_padded, Hz.
    + rewrite skipn_app, P, Nat.sub_diag, skipn_O.
      rewrite skipn_all2 by lia. reflexivity.
Qed.

End XrefEntries.

(** X16.  For offsets from 0 up to, not including, ten thousand
    million, the loop that writes the table adds one entry per offset,
    in order, each exactly twenty bytes long: ten bytes that read back
    as the offset, zeros in front, then [ 00000 n ] and a newline. *)
Theorem xref_entries_are_twenty_bytes (positions : list Z) (xref : list bytes) :
  Forall (fun pos => 0 <= pos < 10 ^ 10) positions ->
  exists entries,
    xref_entries positions xref = Ok (xref ++ entries)
    /\ Forall2 (fun pos entry =>
                 length entry = 20%nat
                 /\ parse_int (firstn 10 entry) = Some pos
                 /\ skipn 10 entry = bs " 00000 n " ++ NL)
              positions entries.
Proof. apply xref_entries_spec. Qed.

Lemma xref_entries_are_twenty_bytes_witness :
  exists entries,
    xref_entries [0; 9; 9999999999] [bs "xref" ++ NL] = Ok ([bs "xref" ++ NL] ++ entries)
    /\ Forall2 (fun pos entry =>
                 length entry = 20%nat
                 /\ parse_int (firstn 10 entry) = Some pos
                 /\ skipn 10 entry = bs " 00000 n " ++ NL)
              [0; 9; 9999999999] entries.
Proof.
  apply (xref_entries_are_twenty_bytes [0; 9; 9999999999] [bs "xref" ++ NL]).
  repeat constructor; lia.
Defined.

(** ** Recording the offsets *)

Section XrefLoop.

Lemma xref_loop_closed objs : forall positions output,
  xref_loop objs positions output
  = (positions
     ++ map (fun i => sum_len (output ++ firstn i objs)) (seq 0 (length objs)),
     output ++ objs).
Proof.
  induction objs as [|obj objs IH]; intros positions output.
  - cbn [xref_loop length seq map]. rewrite !List.app_nil_r. reflexivity.
  - cbn [xref_loop length seq map]. rewrite IH, <- !List.app_assoc.
    cbn [app firstn]. rewrite List.app_nil_r. do 3 f_equal.
    rewrite <- seq_shift, map_map. apply map_ext. intro i.
    cbn [firstn]. rewrite <- List.app_assoc. reflexivity.
Qed.

Lemma join_nil_app {A} (a b : list (list A)) :
  join [] (a ++ b) = join [] a ++ join [] b.
Proof. rewrite !join_nil_concat. apply concat_app. Qed.

End XrefLoop.

(** X17.  The loop that records the offsets, for any objects and any
    output so far: it appends the objects to the output in order, and
    the offset it records for the [i]-th object is the total length of
    what precedes it, so that the joined output, from that offset on,
    is the object followed by the later ones. *)
Theorem xref_loop_records_object_starts (objs output0 : list bytes) (i : nat)
    (obj : bytes) :
  nth_error objs i = Some obj ->
  exists pos,
    snd (xref_loop objs [] output0) = output0 ++ objs
    /\ length (fst (xref_loop objs [] output0)) = length objs
    /\ nth_error (fst (xref_loop objs [] output0)) i = Some pos
    /\ pos = len (join [] (output0 ++ firstn i objs))
    /\ skipn (Z.to_nat pos) (join [] (snd (xref_loop objs [] output0)))
       = obj ++ join [] (skipn (S i) objs).
Proof.
  intro H. rewrite xref_loop_closed. cbn [fst snd app].
  exists (len (join [] (output0 ++ firstn i objs))).
  assert (Hi : (i < length objs)%nat) by (apply nth_error_Some; congruence).
  split; [reflexivity|]. split; [rewrite length_map, length_seq; reflexivity|].
  split; [|split; [reflexivity|]].
  - rewrite nth_error_map, nth_error_seq.
    replace (i <? length objs)%nat with true by (symmetry; apply Nat.ltb_lt, Hi).
    cbn [option_map Nat.add]. rewrite sum_len_join. reflexivity.
  - destruct (nth_error_split _ _ H) as (l1 & l2 & E & L).
    assert (F : firstn i objs = l1)
      by (rewrite E, <- L, firstn_app, Nat.sub_diag, firstn_all;
          cbn [firstn]; apply List.app_nil_r).
    assert (S2 : skipn (S i) objs = l2).
    { rewrite E, <- L.
      change (l1 ++ obj :: l2) with (l1 ++ [obj] ++ l2).
      rewrite List.app_assoc, skipn_app.
      rewrite skipn_all2 by (rewrite length_app; simpl; lia).
      rewrite length_app. cbn [length app].
      replace (S (length l1) - (length l1 + 1))%nat with 0%nat by lia.
      reflexivity. }
    rewrite F, S2. rewrite E at 1.
    replace (output0 ++ l1 ++ obj :: l2) with ((output0 ++ l1) ++ [obj] ++ l2)
      by (rewrite <- List.app_assoc; reflexivity).
    unfold bytes in *. rewrite !join_nil_app, skipn_len_app.
    cbn [join]. reflexivity.
Qed.

Lemma xref_loop_records_object_starts_witness :
  exists pos,
    snd (xref_loop [bs "ab"; bs "cde"] [] [bs "%"]) = [bs "%"] ++ [bs "ab"; bs "cde"]
    /\ length (fst (xref_loop [bs "ab"; bs "cde"] [] [bs "%"]))
       = length [bs "ab"; bs "cde"]
    /\ nth_error (fst (xref_loop [bs "ab"; bs "cde"] [] [bs "%"])) 1 = Some pos
    /\ pos = len (join [] ([bs "%"] ++ firstn 1 [bs "ab"; bs "cde"]))
    /\ skipn (Z.to_nat pos)
         (join [] (snd (xref_loop [bs "ab"; bs "cde"] [] [bs "%"])))
       = bs "cde" ++ join [] (skipn 2 [bs "ab"; bs "cde"]).
Proof.
  apply (xref_loop_records_object_starts [bs "ab"; bs "cde"] [bs "%"] 1 (bs "cde")).
  reflexivity.
Defined.

(** ** Bullet lines and the body width *)

Section BulletWidth.

Lemma prefixed_Forall (P : pystr -> Prop) wrapped :
  Forall P wrapped ->
  forall i,
    Forall (fun t => exists line,
                P line /\ (t = py "- " ++ line \/ t = py "  " ++ line))
           (prefixed i wrapped).
Proof.
  induction 1 as [|line wrapped Hl _ IH]; intro i; [constructor|].
  cbn [prefixed]. constructor; [|apply IH].
  exists line. split; [exact Hl|]. destruct (Nat.eqb i 0); [left|right]; reflexivity.
Qed.

End BulletWidth.

(** X19.  A bullet line fits the body width: every text a bullet item
    is drawn as is a wrapped line after its two-character prefix, and
    is at most 88 code points long, within the 90 of the body, unless
    the line is a single word of the item too long to fit, which is
    kept whole. *)
Theorem bullet_lines_fit_body_width (item : pystr) :
  Forall (fun t =>
            exists line,
              (t = py "- " ++ line \/ t = py "  " ++ line)
              /\ ((len line <= MAX_CHARS_BODY_INDENT
                   /\ len t <= MAX_CHARS_BODY_INDENT + 2
                   /\ len t <= MAX_CHARS_BODY)
                  \/ long_word item line))
         (bullet_texts item).
Proof.
  rewrite bullet_texts_prefixed.
  eapply Forall_impl;
    [|apply (prefixed_Forall
               (fun l => len l <= MAX_CHARS_BODY_INDENT \/ long_word item l));
      eapply Forall_impl;
        [|apply (wrap_loop_bound MAX_CHARS_BODY_INDENT);
          [unfold MAX_CHARS_BODY_INDENT; lia
          |apply alternating_Forall, split_alternating]]].
  - intros t (line & [B|L] & T); exists line; (split; [exact T|]);
      [left|right; exact L].
    assert (len t = 2 + len line)
      by (destruct T as [-> | ->]; rewrite len_app; reflexivity).
    unfold MAX_CHARS_BODY_INDENT, MAX_CHARS_BODY in *. lia.
  - intros l [B|[I [_ Wd]]]; [left; exact B|right; split; assumption].
Qed.
